(** * SEAIHRD coupled-epidemics model: a shallow embedding of
      [run_SEIHRD_model.py] and the verification of its specification.

    Numbers are modelled as real numbers ([R] of the Standard Library): the
    statements below are the exact-arithmetic content of the program.  Day
    indices are integers ([Z]); the confinement day [tc] is an integer day or
    the sentinel [np.inf]. *)

From Stdlib Require Import Reals Lra Lia List ZArith Bool PeanoNat.
From Stdlib Require Import Permutation.
Import ListNotations.

Open Scope R_scope.

(** ** Numeric helpers *)

(** The confinement day: an integer offset, or [np.inf] ("never"). *)
Inductive time : Type :=
| Day (d : Z)
| Inf.

(** Python's [x ** y] on floats, on the domain where its value is a real
    number: [x > 0], or [x = 0] with [y >= 0] (where [0 ** 0 = 1] and
    [0 ** y = 0]).  Outside this domain the float result is [inf] or [nan];
    every theorem that depends on the value of a power keeps its arguments
    inside the domain. *)
Definition rpow (x y : R) : R :=
  if Req_dec_T x 0
  then (if Req_dec_T y 0 then 1 else 0)
  else Rpower x y.

(** The arguments on which the float power is a real number.  Elsewhere
    numpy returns [inf] (base 0, negative exponent) or [nan] (negative base,
    fractional exponent), and [rpow] is not what the code computes. *)
Definition pow_defined (x y : R) : Prop :=
  0 < x \/ (x = 0 /\ 0 <= y).

(** ** Model parameters: the tuple
    [(β, k_avg, η, α, γI, μI, ν, γH, μH, κ0, σ, tc)]. *)
Record ModelParameters : Type := mkParams {
  β : R; k_avg : R; η : R; α : R;
  γI : R; μI : R; ν : R;
  γH : R; μH : R;
  κ0 : R; σ : R; tc : time
}.

(** ** Compartment state: the vector [S,E,CH,A,I,H,R,D]. *)
Record state : Type := mkState {
  S_ : R; E_ : R; CH_ : R; A_ : R; I_ : R; H_ : R; R_ : R; D_ : R
}.

Definition total (x : state) : R :=
  S_ x + E_ x + CH_ x + A_ x + I_ x + H_ x + R_ x + D_ x.

Definition zero_state : state := mkState 0 0 0 0 0 0 0 0.

(** ** Model helper functions *)

(** [Θ(t,tc) = np.heaviside(t - tc, 1)]: 1 from day [tc] on (inclusive). *)
Definition Θ (t : Z) (c : time) : R :=
  match c with
  | Day d => if (d <=? t)%Z then 1 else 0
  | Inf => 0
  end.

(** Kronecker delta [δ(t,tc)]. *)
Definition δ (t : Z) (c : time) : R :=
  match c with
  | Day d => if (t =? d)%Z then 1 else 0
  | Inf => 0
  end.

(** Number of contacts. *)
Definition k (t : Z) (k_avg κ0 σ : R) (tc : time) : R :=
  (1 - κ0 * Θ t tc) * k_avg + κ0 * (σ - 1) * Θ t tc.

(** Infection probability. *)
Definition P (I A : R) (t : Z) (β k_avg κ0 σ : R) (tc : time) : R :=
  1 - rpow (1 - β) (k t k_avg κ0 σ tc * (I + A)).

(** ** One step of the discrete-time model *)
Definition SEAIHRD_markov_step
  (x : state) (t : Z) (S_tc CH_tc : R) (p : ModelParameters) : state :=
  let Pt := P (I_ x) (A_ x) t (β p) (k_avg p) (κ0 p) (σ p) (tc p) in
  {| S_  := S_ x * (1 - Pt) * (1 - δ t (tc p) * κ0 p * CH_tc);
     E_  := S_ x * Pt * (1 - δ t (tc p) * κ0 p * CH_tc) + (1 - η p) * E_ x;
     CH_ := S_tc * κ0 p * CH_tc * Θ t (tc p);
     A_  := η p * E_ x + (1 - α p) * A_ x;
     I_  := α p * A_ x + (1 - (γI p + μI p + ν p)) * I_ x;
     H_  := ν p * I_ x + (1 - (γH p + μH p)) * H_ x;
     R_  := γI p * I_ x + γH p * H_ x + R_ x;
     D_  := μI p * I_ x + μH p * H_ x + D_ x |}.

(** ** Solver *)

(** The type of the step function handed to [solve]. *)
Definition step_fn : Type :=
  state -> Z -> R -> R -> ModelParameters -> state.

(** The variables the loop of [solve] updates. *)
Record loop_state : Type := mkLoop {
  xt : state;          (* current state *)
  S_tc : R;            (* frozen scalars *)
  CH_tc : R;
  sol : list state     (* the preallocated array of rows *)
}.

(** [sol[i,:] = v]; the index is always in range inside [solve]. *)
Fixpoint set_row (i : nat) (v : state) (rows : list state) : list state :=
  match rows, i with
  | [], _ => []
  | _ :: rest, O => v :: rest
  | r :: rest, Datatypes.S j => r :: set_row j v rest
  end.

Definition is_day (t : Z) (c : time) : bool :=
  match c with
  | Day d => (t =? d)%Z
  | Inf => false
  end.

(** Body of the loop [for (i,t) in enumerate(range(n_steps))]. *)
Definition solve_body (f : step_fn) (p : ModelParameters)
  (ls : loop_state) (i : nat) : loop_state :=
  let t := Z.of_nat i in
  let S_tc' := if is_day t (tc p) then S_ (xt ls) else S_tc ls in
  let CH_tc' :=
    if is_day t (tc p) then rpow (S_ (xt ls) + R_ (xt ls)) (σ p)
    else CH_tc ls in
  {| xt := f (xt ls) t S_tc' CH_tc' p;
     S_tc := S_tc';
     CH_tc := CH_tc';
     sol := set_row i (xt ls) (sol ls) |}.

Definition solve_init (x0 : state) (n_steps : nat) : loop_state :=
  {| xt := x0; S_tc := 0; CH_tc := 0; sol := repeat zero_state n_steps |}.

(** The loop state after the first [m] iterations of a run of [n_steps]. *)
Definition solve_loop (f : step_fn) (x0 : state) (n_steps : nat)
  (p : ModelParameters) (m : nat) : loop_state :=
  fold_left (solve_body f p) (seq 0 m) (solve_init x0 n_steps).

(** [solve(f, x0, t0, n_steps, *params)]; [t0] is overwritten by the loop. *)
Definition solve (f : step_fn) (x0 : state) (t0 : R) (n_steps : nat)
  (p : ModelParameters) : list state :=
  sol (solve_loop f x0 n_steps p n_steps).

(** ** Results of the numeric routines

    [Value a] is a normal return; [NaN] marks a float result that is not a
    real number (the mean of an empty array), which the model does not follow
    further; [Raises] is a Python exception. *)
Inductive result (A : Type) : Type :=
| Value (a : A)
| NaN
| Raises.
Arguments Value {A} a.
Arguments NaN {A}.
Arguments Raises {A}.

Definition bind {A B : Type} (r : result A) (g : A -> result B) : result B :=
  match r with
  | Value a => g a
  | NaN => NaN
  | Raises => Raises
  end.

(** What a numpy reduction returns: a 0-d scalar or a 1-d array. *)
Inductive np_value : Type :=
| NpScalar (v : R)
| NpArray (v : list R).

Definition rsum (l : list R) : R := fold_right Rplus 0 l.

(** Element-wise [a + b] of two 1-d arrays of the same length. *)
Definition vadd (a b : list R) : list R :=
  map (fun ab => fst ab + snd ab) (combine a b).

(** Element-wise [a - b] with numpy's broadcasting of 1-d shapes: equal
    lengths, or one operand of length 1; any other pair is a [ValueError]. *)
Definition np_sub (a b : list R) : result (list R) :=
  if (length a =? length b)%nat
  then Value (map (fun ab => fst ab - snd ab) (combine a b))
  else if (length b =? 1)%nat then Value (map (fun u => u - hd 0 b) a)
  else if (length a =? 1)%nat then Value (map (fun v => hd 0 a - v) b)
  else Raises.

(** [np.mean]: the mean of an empty array is [nan]. *)
Definition np_mean (l : list R) : result R :=
  match l with
  | [] => NaN
  | _ :: _ => Value (rsum l / INR (length l))
  end.

(** [MAE(x,y) = np.mean(np.abs(x[:] - y[:len(x)]))]. *)
Definition MAE (x y : list R) : result R :=
  bind (np_sub x (firstn (length x) y)) (fun d => np_mean (map Rabs d)).

(** The mean absolute error as the specification words it: over the first
    [min(len(observed), len(projection))] elements of both sequences. *)
Definition MAE_front (observed projection : list R) : R :=
  let m := Nat.min (length observed) (length projection) in
  rsum (map (fun ab => Rabs (fst ab - snd ab))
          (combine (firstn m observed) (firstn m projection))) / INR m.

(** ** Columns of a solution and derived quantities *)
Definition Suceptibles (sol : list state) : list R := map S_ sol.
Definition Exposed (sol : list state) : list R := map E_ sol.
Definition Quarantined (sol : list state) : list R := map CH_ sol.
Definition Asymptomatic (sol : list state) : list R := map A_ sol.
Definition Infected (sol : list state) : list R := map I_ sol.
Definition Hospitalized (sol : list state) : list R := map H_ sol.
Definition Recovered (sol : list state) : list R := map R_ sol.
Definition Deceased (sol : list state) : list R := map D_ sol.

Definition ActiveCases (sol : list state) : list R :=
  vadd (Infected sol) (Hospitalized sol).
Definition TotalCases (sol : list state) : list R :=
  vadd (vadd (vadd (Infected sol) (Hospitalized sol)) (Recovered sol))
       (Deceased sol).
Definition ICUcases (sol : list state) : list R :=
  vadd (Hospitalized sol) (Deceased sol).

(** [np.sum(rows, axis=0)] on a list of 1-d arrays: the empty list sums to
    the scalar [0.0]; rows of one common length are added up row after row;
    ragged rows do not form an array. *)
Definition np_sum_axis0 (rows : list (list R)) : result np_value :=
  match rows with
  | [] => Value (NpScalar 0)
  | r :: rs =>
      if forallb (fun r' => (length r' =? length r)%nat) rs
      then Value (NpArray (fold_left vadd rs r))
      else Raises
  end.

(** ** Aggregation *)
Definition CasesAggregation (sol_per_state : list (list state))
  (f : list state -> list R) : result np_value :=
  np_sum_axis0 (map f sol_per_state).

(** ** Fitting *)

(** [sol * N]: a fractional trajectory rescaled to absolute counts. *)
Definition scale_state (N : R) (x : state) : state :=
  mkState (S_ x * N) (E_ x * N) (CH_ x * N) (A_ x * N)
          (I_ x * N) (H_ x * N) (R_ x * N) (D_ x * N).
Definition scale (sol : list state) (N : R) : list state :=
  map (scale_state N) sol.

(** What the script reads for one region at the initial date. *)
Record region : Type := mkRegion {
  population : R; confirmed : R; deaths : R; recovered : R
}.

(** The script-level variables [solve_national] reads: the model constants
    (the [κ0] field is replaced by the argument), [n_days] and the regions. *)
Record globals : Type := mkGlobals {
  constants : ModelParameters;
  n_days : nat;
  states_mex : list region
}.

Definition with_κ0 (c : ModelParameters) (κ : R) : ModelParameters :=
  mkParams (β c) (k_avg c) (η c) (α c) (γI c) (μI c) (ν c) (γH c) (μH c)
           κ (σ c) (tc c).

(** Initial conditions of one region for the latent proportion [r]. *)
Definition initial_conditions (reg : region) (r : R) : state :=
  let N := population reg in
  let p := 1 / 2 in
  let R0 := recovered reg / N in
  let D0 := deaths reg / N in
  let I0 := confirmed reg / N - R0 - D0 in
  let E0 := p * r * I0 in
  let A0 := (1 - p) * r * I0 in
  let H0 := 0 in
  let CH0 := 0 in
  let S0 := 1 - E0 - A0 - I0 - R0 - D0 - H0 in
  mkState S0 E0 CH0 A0 I0 H0 R0 D0.

(** The per-region projections [solve_national] collects. *)
Definition projections (g : globals) (r κ : R) : list (list state) :=
  map (fun reg =>
         scale (solve SEAIHRD_markov_step (initial_conditions reg r) 0
                  (n_days g) (with_κ0 (constants g) κ))
               (population reg))
      (states_mex g).

Definition solve_national (g : globals) (r κ : R) : result np_value :=
  CasesAggregation (projections g r κ) TotalCases.

(** [MAE(data, f(r))] with [f(r) = solve_national(r, 0.0)]; slicing a 0-d
    scalar raises. *)
Definition fit_error (g : globals) (data : list R) (r : R) : result R :=
  bind (solve_national g r 0)
       (fun y => match y with
                 | NpArray v => MAE data v
                 | NpScalar _ => Raises
                 end).

(** An entry of the error list: a real number, or [nan]. *)
Inductive fnum : Type :=
| Num (v : R)
| Nan.

(** What a call of [MAE] leaves in the list: a [nan] mean is a value like
    any other, only an exception interrupts the comprehension. *)
Definition as_fnum (m : result R) : result fnum :=
  match m with
  | Value v => Value (Num v)
  | NaN => Value Nan
  | Raises => Raises
  end.

(** [cross_validation(data, r_range)]: one MAE per candidate, in order. *)
Fixpoint cross_validation (g : globals) (data : list R) (r_range : list R)
  : result (list fnum) :=
  match r_range with
  | [] => Value []
  | r :: rest =>
      bind (as_fnum (fit_error g data r)) (fun m =>
      bind (cross_validation g data rest) (fun ms => Value (m :: ms)))
  end.

(** Python's [min] of a list: keeps the first smallest element. *)
Definition py_min (l : list R) : result R :=
  match l with
  | [] => Raises
  | a :: rest =>
      Value (fold_left (fun m v => if Rlt_dec v m then v else m) rest a)
  end.

(** Python's [list.index]: the first position holding the value. *)
Fixpoint py_index (v : R) (l : list R) : result nat :=
  match l with
  | [] => Raises
  | a :: rest =>
      if Req_dec_T a v then Value O
      else bind (py_index v rest) (fun i => Value (Datatypes.S i))
  end.

Definition py_getitem (l : list R) (i : nat) : result R :=
  match nth_error l i with
  | Some v => Value v
  | None => Raises
  end.

(** [r_min(r_range, mae_range) = r_range[mae_range.index(min(mae_range))]]. *)
Definition r_min (r_range mae_range : list R) : result R :=
  bind (py_min mae_range) (fun m =>
  bind (py_index m mae_range) (fun i => py_getitem r_range i)).

(** Comparisons of floats: every comparison with [nan] is false. *)
Definition flt (a b : fnum) : bool :=
  match a, b with
  | Num x, Num y => if Rlt_dec x y then true else false
  | _, _ => false
  end.

Definition feq (a b : fnum) : bool :=
  match a, b with
  | Num x, Num y => if Req_dec_T x y then true else false
  | _, _ => false
  end.

(** Python's [min] on a list that may hold [nan]: the running minimum is
    replaced by an element only when the element is less than it.  The
    position of the object that is returned is kept, because [list.index]
    recognises an object by identity before it compares. *)
Fixpoint min_from (j pos : nat) (m : fnum) (l : list fnum) : nat * fnum :=
  match l with
  | [] => (pos, m)
  | v :: rest =>
      if flt v m then min_from (Datatypes.S j) j v rest
      else min_from (Datatypes.S j) pos m rest
  end.

Definition py_min_obj (l : list fnum) : result (nat * fnum) :=
  match l with
  | [] => Raises
  | a :: rest => Value (min_from 1 0 a rest)
  end.

(** [list.index] of the object standing at position [pos]: the first
    position that holds this very object or a value equal to it. *)
Fixpoint py_index_obj (pos : nat) (m : fnum) (j : nat) (l : list fnum)
  : result nat :=
  match l with
  | [] => Raises
  | a :: rest =>
      if (j =? pos)%nat || feq a m then Value j
      else py_index_obj pos m (Datatypes.S j) rest
  end.

(** [r_min] on an error list that may hold [nan]; on a list of real numbers
    it is [r_min] (lemma [r_min_floats_real]). *)
Definition r_min_floats (r_range : list R) (mae_range : list fnum)
  : result R :=
  bind (py_min_obj mae_range) (fun om =>
  bind (py_index_obj (fst om) (snd om) 0 mae_range)
       (fun i => py_getitem r_range i)).

(** The calibration of the script:
    [mae_range = cross_validation(data, r_range)] followed by
    [r = r_min(r_range, mae_range)]. *)
Definition calibrate (g : globals) (data : list R) (r_range : list R)
  : result R :=
  bind (cross_validation g data r_range) (r_min_floats r_range).

(** The total cases of one state: I + H + R + D. *)
Definition total_cases (x : state) : R := I_ x + H_ x + R_ x + D_ x.

(** ** Validity of a configuration *)

(** Every rate is a probability per day. *)
Definition rates_in_unit (p : ModelParameters) : Prop :=
  0 <= β p <= 1 /\ 0 <= η p <= 1 /\ 0 <= α p <= 1
  /\ 0 <= γI p <= 1 /\ 0 <= μI p <= 1 /\ 0 <= ν p <= 1
  /\ 0 <= γH p <= 1 /\ 0 <= μH p <= 1.

(** The outflows of the infected and hospitalized compartments. *)
Definition outflows_bounded (p : ModelParameters) : Prop :=
  γI p + μI p + ν p <= 1 /\ γH p + μH p <= 1.

Definition containment_valid (p : ModelParameters) : Prop :=
  0 <= κ0 p <= 1 /\ 1 <= σ p.

Definition nonneg (x : state) : Prop :=
  0 <= S_ x /\ 0 <= E_ x /\ 0 <= CH_ x /\ 0 <= A_ x
  /\ 0 <= I_ x /\ 0 <= H_ x /\ 0 <= R_ x /\ 0 <= D_ x.

(** A valid configuration: probabilities, bounded outflows, a non-negative
    number of contacts, and a valid containment policy. *)
Definition valid_params (p : ModelParameters) : Prop :=
  rates_in_unit p /\ outflows_bounded p /\ containment_valid p
  /\ 0 <= k_avg p.

(** Non-negative compartments outside confinement, holding at most the whole
    population. *)
Definition fractions (x : state) : Prop :=
  0 <= S_ x /\ 0 <= E_ x /\ 0 <= A_ x /\ 0 <= I_ x /\ 0 <= H_ x
  /\ 0 <= R_ x /\ 0 <= D_ x
  /\ S_ x + E_ x + A_ x + I_ x + H_ x + R_ x + D_ x <= 1.

(** The confinement day is the "never" sentinel, or lies beyond a run of
    [n] days. *)
Definition never (n : nat) (p : ModelParameters) : Prop :=
  tc p = Inf \/ exists d, tc p = Day d /\ (Z.of_nat n <= d)%Z.

(** ** Concrete configurations used in the examples below *)

(** No transitions at all, no confinement. *)
Definition idle_params : ModelParameters :=
  mkParams 0 0 0 0 0 0 0 0 0 0 1 Inf.

(** Full confinement ([κ0 = 1]) on day 0, everything else idle. *)
Definition lockdown_params : ModelParameters :=
  mkParams 0 0 0 0 0 0 0 0 0 1 1 (Day 0).

Definition all_susceptible : state := mkState 1 0 0 0 0 0 0 0.
Definition all_confined : state := mkState 0 0 1 0 0 0 0 0.

(** Rates in [0,1] whose sum out of the infected compartment is 3. *)
Definition eager_params : ModelParameters :=
  mkParams 0 0 0 0 1 1 1 0 0 0 1 Inf.
Definition half_infected : state := mkState (1/2) 0 0 0 (1/2) 0 0 0.

(** A valid configuration with confinement on day 0, run on a state whose
    compartments sum to 5. *)
Definition crowded_params : ModelParameters :=
  mkParams 1 2 1 1 1 0 0 0 0 (1/2) 1 (Day 0).
Definition oversized : state := mkState 4 0 0 1 0 0 0 0.

(** Probabilities and outflows are fine, the number of contacts is -2. *)
Definition negative_contacts : ModelParameters :=
  mkParams (1/2) (-2) 1 1 1 0 0 0 0 0 1 Inf.
Definition half_asymptomatic : state := mkState (1/2) 0 0 (1/2) 0 0 0 0.

(** One region of one inhabitant without any case, run for two days. *)
Definition two_days : globals :=
  mkGlobals idle_params 2 [mkRegion 1 0 0 0].

(** The same configuration with another confinement day. *)
Definition with_tc (c : ModelParameters) (d : time) : ModelParameters :=
  mkParams (β c) (k_avg c) (η c) (α c) (γI c) (μI c) (ν c) (γH c) (μH c)
           (κ0 c) (σ c) d.

(** No exposed, asymptomatic, infected or hospitalized individual. *)
Definition disease_free (x : state) : Prop :=
  E_ x = 0 /\ A_ x = 0 /\ I_ x = 0 /\ H_ x = 0.

(** A run of the script's kind: contacts 10, confinement of strength 1/2 on
    day 2, household size 3. *)
Definition sample_params : ModelParameters :=
  mkParams (1/2) 10 (1/2) (1/2) (1/4) 0 (1/4) (1/4) (1/4) (1/2) 3 (Day 2).
Definition sample_state : state :=
  mkState (3/4) (1/8) 0 (1/16) (1/16) 0 0 0.

(** ** The constants the script derives *)

(** [np.dot] of two 1-d arrays of the same length. *)
Definition dot (a b : list R) : R :=
  rsum (map (fun ab => fst ab * snd ab) (combine a b)).

(** The age-structured inputs: the population pyramid and, per age group,
    the escape rate, the fraction of cases requiring ICU, the contacts per
    day and the asymptomatic infectious rate. *)
Record age_structure : Type := mkAges {
  pop_dist : list R; μg : list R; γg : list R; kg : list R; αg : list R
}.

(** The model parameters computed from the basic reproductive ratio [R_0],
    the latent rate, the ICU constants [ωg], [ψg], [χg] and the household
    size, averaged over the age groups. *)
Definition model_constants (R_0 latent ωg ψg χg household : R)
  (ages : age_structure) (κ : R) (c : time) : ModelParameters :=
  let μ_avg := dot (μg ages) (pop_dist ages) in
  let γ_avg := dot (γg ages) (pop_dist ages) in
  let k_avg' := dot (kg ages) (pop_dist ages) in
  let α' := dot (αg ages) (pop_dist ages) in
  let β' := - exp (- R_0 / (k_avg' * (1 / α' + 1 / μ_avg))) + 1 in
  mkParams β' k_avg' latent α'
           (μ_avg * (1 - γ_avg)) 0 (μ_avg * γ_avg)
           ((1 - ωg) * χg) (ωg * ψg)
           κ household c.

(** Well-formed age-structured inputs: one entry per age group, a pyramid
    of non-negative weights summing to at most 1, rates and fractions in
    [0,1], non-negative contacts. *)
Definition ages_ok (ages : age_structure) : Prop :=
  length (μg ages) = length (pop_dist ages)
  /\ length (γg ages) = length (pop_dist ages)
  /\ length (kg ages) = length (pop_dist ages)
  /\ length (αg ages) = length (pop_dist ages)
  /\ Forall (fun w => 0 <= w) (pop_dist ages)
  /\ rsum (pop_dist ages) <= 1
  /\ Forall (fun v => 0 <= v <= 1) (μg ages)
  /\ Forall (fun v => 0 <= v <= 1) (γg ages)
  /\ Forall (fun v => 0 <= v <= 1) (αg ages)
  /\ Forall (fun v => 0 <= v) (kg ages).

(** The values the script sets. *)
Definition script_ages : age_structure :=
  mkAges [55545770 / 128569304; 62567894 / 128569304; 9461864 / 128569304]
         [1 / 1; 1 / 3.2; 1 / 3.2]
         [0.002; 0.05; 0.36]
         [11.8; 13.3; 6.6]
         [1 / 5.06; 1 / 2.86; 1 / 2.86].

Definition script_constants (R_0 κ : R) : ModelParameters :=
  model_constants R_0 (1 / 2.34) 0.42 (1 / 7) (1 / 10) 3.7 script_ages κ
    (Day 6).

(** Data of a region that give a population distribution for the latent
    proportion [r]: a positive population, non-negative counts, closed cases
    within the confirmed ones, confirmed plus latent cases within the
    population. *)
Definition valid_data (reg : region) (r : R) : Prop :=
  0 < population reg /\ 0 <= recovered reg /\ 0 <= deaths reg
  /\ recovered reg + deaths reg <= confirmed reg /\ 0 <= r
  /\ confirmed reg + r * (confirmed reg - recovered reg - deaths reg)
     <= population reg.

(** Certain infection per contact with a negative number of contacts. *)
Definition negative_exponent_params : ModelParameters :=
  mkParams 1 (-2) 0 0 0 0 0 0 0 0 1 Inf.

(** One region of 1000 inhabitants with 10 confirmed cases, two days. *)
Definition one_region : globals :=
  mkGlobals sample_params 2 [mkRegion 1000 10 0 0].

(** Confinement on day 0 with the household size of the script, and a
    region whose confirmed cases are a tenth of its population. *)
Definition early_tc_params : ModelParameters :=
  mkParams (1/2) 10 (1/2) (1/2) (1/4) 0 (1/4) (1/4) (1/4) (1/2) 3.7 (Day 0).
Definition tenth_confirmed : region := mkRegion 1000 100 0 0.

(** * Properties *)

(** ** The solver loop *)

Section SolverLoop.

Variable f : step_fn.
Variable x0 : state.
Variable p : ModelParameters.

Lemma solve_loop_0 (n : nat) : solve_loop f x0 n p 0 = solve_init x0 n.
Proof. reflexivity. Qed.

Lemma solve_loop_S (n m : nat) :
  solve_loop f x0 n p (Datatypes.S m)
  = solve_body f p (solve_loop f x0 n p m) m.
Proof.
  unfold solve_loop. rewrite seq_S, fold_left_app. reflexivity.
Qed.

(** The rows of [sol] play no part in the evolution of the other loop
    variables. *)
Lemma solve_loop_core (n n' m : nat) :
  xt (solve_loop f x0 n p m) = xt (solve_loop f x0 n' p m)
  /\ S_tc (solve_loop f x0 n p m) = S_tc (solve_loop f x0 n' p m)
  /\ CH_tc (solve_loop f x0 n p m) = CH_tc (solve_loop f x0 n' p m).
Proof.
  induction m as [|m [Hx [Hs Hc]]].
  - repeat split.
  - rewrite !solve_loop_S. unfold solve_body; cbn [xt S_tc CH_tc].
    rewrite Hx, Hs, Hc. repeat split.
Qed.

Lemma set_row_length (i : nat) (v : state) (rows : list state) :
  length (set_row i v rows) = length rows.
Proof.
  revert i; induction rows as [|r rows IH]; intros [|i]; cbn; auto.
Qed.

Lemma set_row_app (a : list state) (v w : state) (b : list state) :
  set_row (length a) v (a ++ w :: b) = a ++ v :: b.
Proof.
  induction a as [|u a IH]; cbn; [reflexivity | now rewrite IH].
Qed.

(** After [m] iterations the first [m] rows hold the states that were
    current at the start of iterations [0 .. m-1]; the rest is still zero. *)
Lemma solve_loop_sol (n m : nat) :
  (m <= n)%nat ->
  sol (solve_loop f x0 n p m)
  = map (fun i => xt (solve_loop f x0 n p i)) (seq 0 m)
    ++ repeat zero_state (n - m).
Proof.
  induction m as [|m IH]; intros Hm.
  - cbn. now rewrite Nat.sub_0_r.
  - rewrite solve_loop_S. unfold solve_body; cbn [sol].
    rewrite IH by lia.
    replace (n - m)%nat with (Datatypes.S (n - Datatypes.S m)) by lia.
    cbn [repeat].
    set (rows := map _ (seq 0 m)).
    assert (Hlen : length rows = m)
      by (unfold rows; now rewrite length_map, length_seq).
    rewrite <- Hlen at 1. rewrite set_row_app.
    rewrite seq_S, map_app. cbn [map]. rewrite <- app_assoc.
    reflexivity.
Qed.

Lemma solve_rows (t0 : R) (n : nat) :
  solve f x0 t0 n p = map (fun i => xt (solve_loop f x0 n p i)) (seq 0 n).
Proof.
  unfold solve. rewrite solve_loop_sol by lia.
  rewrite Nat.sub_diag. cbn. now rewrite app_nil_r.
Qed.

Lemma solve_length (t0 : R) (n : nat) : length (solve f x0 t0 n p) = n.
Proof. now rewrite solve_rows, length_map, length_seq. Qed.

Lemma solve_nth_error (t0 : R) (n i : nat) :
  (i < n)%nat ->
  nth_error (solve f x0 t0 n p) i = Some (xt (solve_loop f x0 n p i)).
Proof.
  intros Hi. rewrite solve_rows.
  rewrite nth_error_map, nth_error_seq.
  destruct (Nat.ltb_spec i n) as [_|Hge]; [reflexivity | lia].
Qed.

Lemma solve_nth_error_None (t0 : R) (n i : nat) :
  (n <= i)%nat -> nth_error (solve f x0 t0 n p) i = None.
Proof.
  intros Hi. apply nth_error_None. now rewrite solve_length.
Qed.

End SolverLoop.

(** ** Powers, step and delta *)

Lemma rpow_pos (x y : R) : 0 < x -> 0 < rpow x y.
Proof.
  intros Hx. unfold rpow.
  destruct (Req_dec_T x 0) as [E0|_]; [lra|].
  unfold Rpower. apply exp_pos.
Qed.

Lemma rpow_unit_interval (x y : R) :
  0 <= x <= 1 -> 0 <= y -> 0 <= rpow x y <= 1.
Proof.
  intros [Hx0 Hx1] Hy. unfold rpow.
  destruct (Req_dec_T x 0) as [E0|N0].
  - destruct (Req_dec_T y 0); lra.
  - assert (Hx : 0 < x) by lra.
    unfold Rpower. split; [left; apply exp_pos|].
    rewrite <- exp_0.
    assert (Hln : ln x <= 0).
    { rewrite <- ln_1. destruct (Req_dec_T x 1) as [->|N1]; [lra|].
      left. apply ln_increasing; lra. }
    destruct (Req_dec_T (y * ln x) 0) as [->|Nz]; [lra|].
    left. apply exp_increasing. nra.
Qed.

Lemma rpow_1_l (y : R) : rpow 1 y = 1.
Proof.
  unfold rpow. destruct (Req_dec_T 1 0); [lra|].
  unfold Rpower. rewrite ln_1, Rmult_0_r. apply exp_0.
Qed.

Lemma rpow_0_r (x : R) : rpow x 0 = 1.
Proof.
  unfold rpow. destruct (Req_dec_T x 0).
  - destruct (Req_dec_T 0 0); [reflexivity | lra].
  - unfold Rpower. rewrite Rmult_0_l. apply exp_0.
Qed.

Lemma rpow_0_l (y : R) : y <> 0 -> rpow 0 y = 0.
Proof.
  intros Hy. unfold rpow.
  destruct (Req_dec_T 0 0); [|lra].
  destruct (Req_dec_T y 0); [contradiction | reflexivity].
Qed.

Lemma rpow_1_r (x : R) : 0 < x -> rpow x 1 = x.
Proof.
  intros Hx. unfold rpow. destruct (Req_dec_T x 0); [lra|].
  now apply Rpower_1.
Qed.

Lemma Θ_cases (t : Z) (c : time) : Θ t c = 0 \/ Θ t c = 1.
Proof.
  unfold Θ. destruct c as [d|]; [destruct (d <=? t)%Z|]; auto.
Qed.

Lemma δ_is_day (t : Z) (c : time) :
  δ t c = if is_day t c then 1 else 0.
Proof. destruct c; reflexivity. Qed.

Lemma Θ_is_day (t : Z) (c : time) : is_day t c = true -> Θ t c = 1.
Proof.
  destruct c as [d|]; cbn; [|discriminate].
  intros H%Z.eqb_eq. subst. now rewrite Z.leb_refl.
Qed.

Lemma Θ_after (t d : Z) : (d <= t)%Z -> Θ t (Day d) = 1.
Proof. intros H. cbn. now apply Z.leb_le in H as ->. Qed.

Lemma Θ_before (t d : Z) : (t < d)%Z -> Θ t (Day d) = 0.
Proof. intros H. cbn. now apply Z.leb_gt in H as ->. Qed.

Lemma is_day_before (t d : Z) : (t < d)%Z -> is_day t (Day d) = false.
Proof. intros H. cbn. apply Z.eqb_neq. lia. Qed.

Lemma k_nonneg (t : Z) (ka κ s : R) (c : time) :
  0 <= ka -> 0 <= κ <= 1 -> 1 <= s -> 0 <= k t ka κ s c.
Proof.
  intros Hka Hκ Hs. unfold k.
  destruct (Θ_cases t c) as [-> | ->]; nra.
Qed.

Lemma k_before (t : Z) (ka κ s : R) (c : time) :
  Θ t c = 0 -> k t ka κ s c = ka.
Proof. intros H. unfold k. rewrite H. ring. Qed.

Lemma P_unit_interval (I A : R) (t : Z) (b ka κ s : R) (c : time) :
  0 <= b <= 1 -> 0 <= I + A -> 0 <= ka -> 0 <= κ <= 1 -> 1 <= s ->
  0 <= P I A t b ka κ s c <= 1.
Proof.
  intros Hb HIA Hka Hκ Hs. unfold P.
  assert (Hk := k_nonneg t ka κ s c Hka Hκ Hs).
  assert (Hp : 0 <= rpow (1 - b) (k t ka κ s c * (I + A)) <= 1).
  { apply rpow_unit_interval; [lra | nra]. }
  lra.
Qed.

(** ** One step: mass balance *)

Lemma step_total (x : state) (t : Z) (s c : R) (p : ModelParameters) :
  total (SEAIHRD_markov_step x t s c p)
  = total x - CH_ x - S_ x * (δ t (tc p) * κ0 p * c)
    + s * κ0 p * c * Θ t (tc p).
Proof. unfold total, SEAIHRD_markov_step. cbn. ring. Qed.

Lemma step_CH (x : state) (t : Z) (s c : R) (p : ModelParameters) :
  CH_ (SEAIHRD_markov_step x t s c p) = s * κ0 p * c * Θ t (tc p).
Proof. reflexivity. Qed.

(** Before the confinement day the step does not see [κ0] nor the frozen
    scalars. *)
Lemma step_before (x : state) (t : Z) (s c s' c' κ : R)
  (p : ModelParameters) :
  Θ t (tc p) = 0 -> δ t (tc p) = 0 ->
  SEAIHRD_markov_step x t s c p
  = SEAIHRD_markov_step x t s' c' (with_κ0 p κ).
Proof.
  intros HΘ Hδ. unfold SEAIHRD_markov_step, P. cbn.
  rewrite !k_before by assumption. rewrite HΘ, Hδ.
  f_equal; ring.
Qed.

(** ** A run of the solver on the model step *)

Section Run.

Variable x0 : state.
Variable n : nat.
Variable p : ModelParameters.

Local Abbreviation L m := (solve_loop SEAIHRD_markov_step x0 n p m).

(** As long as no iteration was the confinement day, the frozen scalars
    keep their initial value 0. *)
Lemma frozen_untouched (f : step_fn) (m : nat) :
  (forall i, (i < m)%nat -> is_day (Z.of_nat i) (tc p) = false) ->
  S_tc (solve_loop f x0 n p m) = 0 /\ CH_tc (solve_loop f x0 n p m) = 0.
Proof.
  induction m as [|m IH]; intros Hno; [split; reflexivity|].
  rewrite solve_loop_S. unfold solve_body; cbn [S_tc CH_tc].
  rewrite (Hno m) by lia. apply IH. intros i Hi. apply Hno. lia.
Qed.

(** From the iteration of day [c] on, they hold what was captured there. *)
Lemma frozen_captured (f : step_fn) (c m : nat) :
  tc p = Day (Z.of_nat c) -> (c < m)%nat ->
  S_tc (solve_loop f x0 n p m) = S_ (xt (solve_loop f x0 n p c))
  /\ CH_tc (solve_loop f x0 n p m)
     = rpow (S_ (xt (solve_loop f x0 n p c))
             + R_ (xt (solve_loop f x0 n p c))) (σ p).
Proof.
  intros Htc. induction m as [|m IH]; intros Hm; [lia|].
  rewrite solve_loop_S. unfold solve_body; cbn [S_tc CH_tc].
  rewrite Htc. cbn [is_day].
  destruct (Z.eqb_spec (Z.of_nat m) (Z.of_nat c)) as [Heq|Hne].
  - apply Nat2Z.inj in Heq. subst m. split; reflexivity.
  - apply IH. lia.
Qed.

Lemma CH_untouched (m : nat) :
  CH_ x0 = 0 ->
  (forall i, (i < m)%nat -> is_day (Z.of_nat i) (tc p) = false) ->
  CH_ (xt (L m)) = 0.
Proof.
  intros H0 Hno. destruct m as [|m]; [exact H0|].
  rewrite solve_loop_S. unfold solve_body; cbn [xt].
  rewrite step_CH, (Hno m) by lia.
  assert (Hfz : S_tc (solve_loop SEAIHRD_markov_step x0 n p m) = 0
                /\ CH_tc (solve_loop SEAIHRD_markov_step x0 n p m) = 0).
  { apply frozen_untouched. intros i Hi. apply Hno. lia. }
  destruct Hfz as [-> ->]. ring.
Qed.

Lemma CH_captured (c m : nat) :
  tc p = Day (Z.of_nat c) -> (c < m)%nat ->
  CH_ (xt (L m))
  = S_ (xt (L c)) * κ0 p * rpow (S_ (xt (L c)) + R_ (xt (L c))) (σ p).
Proof.
  intros Htc Hm. destruct m as [|m]; [lia|].
  destruct (frozen_captured SEAIHRD_markov_step c (Datatypes.S m) Htc Hm)
    as [HS HC].
  rewrite solve_loop_S in *.
  unfold solve_body in *; cbn [xt S_tc CH_tc] in *.
  rewrite step_CH, HS, HC, Htc, Θ_after by lia. ring.
Qed.

(** Closed population: the loop invariant behind conservation. *)
Lemma conservation_invariant (m : nat) :
  CH_ x0 = 0 ->
  total (xt (L m)) = total x0
  /\ CH_ (xt (L m)) = S_tc (L m) * κ0 p * CH_tc (L m)
  /\ ((S_tc (L m) = 0 /\ CH_ (xt (L m)) = 0)
      \/ exists d, tc p = Day d /\ (d < Z.of_nat m)%Z).
Proof.
  intros H0. induction m as [|m (Htot & HCH & Hcase)].
  - cbn. rewrite H0. repeat split; [ring | left; split; reflexivity].
  - rewrite solve_loop_S.
    set (ls := solve_loop SEAIHRD_markov_step x0 n p m) in *.
    unfold solve_body; cbn [xt S_tc CH_tc].
    rewrite step_total, step_CH, δ_is_day.
    destruct (is_day (Z.of_nat m) (tc p)) eqn:Hday.
    + rewrite (Θ_is_day _ _ Hday).
      assert (Hzero : CH_ (xt ls) = 0).
      { destruct Hcase as [[_ Hz]|(d & Hd & Hlt)]; [exact Hz|].
        rewrite Hd in Hday. cbn in Hday. apply Z.eqb_eq in Hday. lia. }
      rewrite Hzero, Htot. split; [ring|]. split; [ring|].
      right. destruct (tc p) as [d|]; [|discriminate].
      exists d. cbn in Hday. apply Z.eqb_eq in Hday. split; [reflexivity|lia].
    + destruct Hcase as [[Hs Hz]|(d & Hd & Hlt)].
      * rewrite Hs, Hz, Htot. split; [ring|]. split; [ring|].
        left. split; [reflexivity | ring].
      * rewrite Hd, Θ_after by lia. rewrite Htot.
        split; [rewrite HCH; ring|]. split; [ring|].
        right. exists d. split; [reflexivity | lia].
Qed.

End Run.

(** ** Conservation *)

(** C1, as stated, fails in two ways.
    - Mass that is in the confined compartment at the start is dropped by
      the first step: with everybody confined initially and an idle, valid
      configuration, day 1 sums to 0.
    - The claim leaves the number of contacts free.  With [β = 1] and
      [k_avg = -2], from the state (1/2, 0, 0, 1/2, 0, 0, 0, 0), the first
      step raises the base 0 to the exponent -1: the float power is [inf],
      the rows S and E of day 1 are [inf] and [-inf], and their sum is
      [nan]. *)
Lemma C1_conservation_counterexample :
  (rates_in_unit idle_params /\ outflows_bounded idle_params
   /\ containment_valid idle_params
   /\ nonneg all_confined /\ total all_confined = 1
   /\ exists s,
        nth_error (solve SEAIHRD_markov_step all_confined 0 2 idle_params) 1
        = Some s
        /\ total s = 0 /\ total s <> 1)
  /\ (rates_in_unit negative_exponent_params
      /\ outflows_bounded negative_exponent_params
      /\ containment_valid negative_exponent_params
      /\ nonneg half_asymptomatic /\ total half_asymptomatic = 1
      /\ CH_ half_asymptomatic = 0
      /\ 1 - β negative_exponent_params = 0
      /\ k 0 (k_avg negative_exponent_params) (κ0 negative_exponent_params)
           (σ negative_exponent_params) (tc negative_exponent_params)
         * (I_ half_asymptomatic + A_ half_asymptomatic) = -1
      /\ ~ pow_defined (1 - β negative_exponent_params)
            (k 0 (k_avg negative_exponent_params)
               (κ0 negative_exponent_params) (σ negative_exponent_params)
               (tc negative_exponent_params)
             * (I_ half_asymptomatic + A_ half_asymptomatic))).
Proof.
  split.
  - unfold rates_in_unit, outflows_bounded, containment_valid, nonneg, total.
    cbn [idle_params all_confined β η α γI μI ν γH μH κ0 σ
         S_ E_ CH_ A_ I_ H_ R_ D_].
    repeat (split; [lra|]).
    eexists. split; [apply solve_nth_error; lia|].
    change (xt (solve_loop SEAIHRD_markov_step all_confined 2 idle_params 1))
      with (SEAIHRD_markov_step all_confined 0 0 0 idle_params).
    fold (total (SEAIHRD_markov_step all_confined 0 0 0 idle_params)).
    rewrite step_total. unfold total. cbn. lra.
  - assert (Hbase : 1 - β negative_exponent_params = 0) by (cbn; lra).
    assert (Hexp : k 0 (k_avg negative_exponent_params)
                     (κ0 negative_exponent_params)
                     (σ negative_exponent_params)
                     (tc negative_exponent_params)
                   * (I_ half_asymptomatic + A_ half_asymptomatic) = -1)
      by (unfold k; cbn; lra).
    split; [unfold rates_in_unit; cbn; repeat split; lra|].
    split; [unfold outflows_bounded; cbn; split; lra|].
    split; [unfold containment_valid; cbn; repeat split; lra|].
    split; [unfold nonneg; cbn; repeat split; lra|].
    split; [unfold total; cbn; lra|].
    split; [reflexivity|].
    split; [exact Hbase|]. split; [exact Hexp|].
    rewrite Hexp, Hbase. unfold pow_defined.
    intros [H | [_ H]]; lra.
Qed.

(** In real numbers conservation is an identity of the step and of the
    capture, given an empty confined compartment at the start. *)
Lemma solve_conserves_total (p : ModelParameters) (x0 : state) (t0 : R)
  (n i : nat) (s : state) :
  CH_ x0 = 0 ->
  nth_error (solve SEAIHRD_markov_step x0 t0 n p) i = Some s ->
  total s = total x0.
Proof.
  intros H0 Hs.
  assert (Hi : (i < n)%nat).
  { rewrite <- (solve_length SEAIHRD_markov_step x0 p t0 n).
    apply nth_error_Some. congruence. }
  rewrite solve_nth_error in Hs by assumption.
  injection Hs as <-.
  now destruct (conservation_invariant x0 n p i H0) as [Htot _].
Qed.

(** C1, amended: for a configuration with rates in [0,1], bounded outflows,
    a non-negative number of contacts, [κ0] in [0,1], [σ >= 1], and a
    non-negative initial state summing to 1 whose confined compartment is
    empty (as in every run of the script), every recorded state sums to 1.
    These hypotheses keep every power of the run where it is a real number
    (lemma [valid_run_powers_defined]). *)
Theorem C1_conservation (p : ModelParameters) (x0 : state) (t0 : R)
  (n i : nat) (s : state) :
  rates_in_unit p -> outflows_bounded p -> containment_valid p ->
  0 <= k_avg p ->
  nonneg x0 -> total x0 = 1 -> CH_ x0 = 0 ->
  nth_error (solve SEAIHRD_markov_step x0 t0 n p) i = Some s ->
  total s = 1.
Proof.
  intros _ _ _ _ _ H1 H0 Hs.
  rewrite <- H1. now apply (solve_conserves_total p x0 t0 n i).
Qed.

Lemma C1_conservation_witness :
  exists s,
    nth_error (solve SEAIHRD_markov_step sample_state 0 6 sample_params) 4
    = Some s
    /\ total s = 1.
Proof.
  eexists. split; [apply solve_nth_error; lia|].
  apply (C1_conservation sample_params sample_state 0 6 4).
  - unfold rates_in_unit. cbn. repeat split; lra.
  - unfold outflows_bounded. cbn. split; lra.
  - unfold containment_valid. cbn. repeat split; lra.
  - cbn. lra.
  - unfold nonneg. cbn. repeat split; lra.
  - unfold total; cbn; lra.
  - reflexivity.
  - apply solve_nth_error; lia.
Defined.

(** ** The confined compartment in one step *)

(** C2, as stated, fails: on a day after [tc] the CH output is still
    [S_tc·κ0·CH_tc], not 0. *)
Lemma C2_one_shot_counterexample :
  1%Z <> 0%Z
  /\ tc lockdown_params = Day 0
  /\ CH_ (SEAIHRD_markov_step all_susceptible 1 1 1 lockdown_params) = 1
  /\ CH_ (SEAIHRD_markov_step all_susceptible 1 1 1 lockdown_params) <> 0.
Proof.
  split; [lia|]. split; [reflexivity|].
  rewrite step_CH. cbn. lra.
Qed.

(** C2, amended: the CH output is [S_tc·κ0·CH_tc] on every day [t >= tc]
    and 0 on every day before [tc] (and always 0 when [tc] is never). *)
Theorem C2_CH_output (x : state) (t : Z) (S_tc CH_tc : R)
  (p : ModelParameters) :
  CH_ (SEAIHRD_markov_step x t S_tc CH_tc p)
  = match tc p with
    | Day d => if (d <=? t)%Z then S_tc * κ0 p * CH_tc else 0
    | Inf => 0
    end.
Proof.
  rewrite step_CH. unfold Θ.
  destruct (tc p) as [d|]; [destruct (d <=? t)%Z|]; ring.
Qed.

(** ** Infection probability *)

(** C9: the infection probability lies in [0,1]. *)
Theorem C9_infection_probability_range
  (I A : R) (t : Z) (b ka κ s : R) (c : time) :
  0 <= b <= 1 -> 0 <= I + A -> 0 <= ka -> 0 <= κ <= 1 -> 1 <= s ->
  0 <= P I A t b ka κ s c <= 1.
Proof. apply P_unit_interval. Qed.

Lemma C9_infection_probability_range_witness :
  0 <= P (1/4) (1/4) 7 (1/2) 10 (1/2) 3 (Day 6) <= 1.
Proof.
  apply (C9_infection_probability_range (1/4) (1/4) 7 (1/2) 10 (1/2) 3
           (Day 6)); lra.
Defined.

(** ** The confined compartment along a run *)

(** C10: with the confinement day [c <= horizon - 2], CH is constant from
    index [c+1] on, equal to [S(c)·κ0·(S(c)+R(c))^σ]. *)
Theorem C10_CH_constant_after_tc (p : ModelParameters) (x0 : state)
  (t0 : R) (n c i : nat) :
  tc p = Day (Z.of_nat c) -> (c + 2 <= n)%nat ->
  (c + 1 <= i)%nat -> (i < n)%nat ->
  exists s_c s_i,
    nth_error (solve SEAIHRD_markov_step x0 t0 n p) c = Some s_c
    /\ nth_error (solve SEAIHRD_markov_step x0 t0 n p) i = Some s_i
    /\ CH_ s_i = S_ s_c * κ0 p * rpow (S_ s_c + R_ s_c) (σ p).
Proof.
  intros Htc Hn Hci Hi.
  do 2 eexists. split; [apply solve_nth_error; lia|].
  split; [apply solve_nth_error; lia|].
  apply CH_captured; [assumption | lia].
Qed.

Lemma C10_CH_constant_after_tc_witness :
  exists s_c s_i,
    nth_error (solve SEAIHRD_markov_step all_susceptible 0 4 lockdown_params)
      0%nat = Some s_c
    /\ nth_error (solve SEAIHRD_markov_step all_susceptible 0 4
                    lockdown_params) 3%nat = Some s_i
    /\ CH_ s_i
       = S_ s_c * κ0 lockdown_params
         * rpow (S_ s_c + R_ s_c) (σ lockdown_params).
Proof.
  apply (C10_CH_constant_after_tc lockdown_params all_susceptible 0 4 0 3);
    [reflexivity | lia | lia | lia].
Defined.

(** ** Capture of the frozen scalars *)

(** C3, as stated, fails at the upper end of the range: with
    [tc = horizon - 1] the trajectory has no index [tc+1], so the
    confinement never shows in what is recorded. *)
Lemma C3_freeze_counterexample :
  tc lockdown_params = Day (Z.of_nat 0) /\ (0 <= 1 - 1)%nat
  /\ κ0 lockdown_params > 0 /\ CH_ all_susceptible = 0
  /\ nth_error (solve SEAIHRD_markov_step all_susceptible 0 1 lockdown_params)
       0 = Some all_susceptible
  /\ S_ all_susceptible > 0 /\ S_ all_susceptible + R_ all_susceptible > 0
  /\ nth_error (solve SEAIHRD_markov_step all_susceptible 0 1 lockdown_params)
       (0 + 1) = None.
Proof.
  cbn [lockdown_params all_susceptible tc κ0 CH_ S_ R_ Z.of_nat].
  repeat split; try lra; try lia.
Qed.

(** C3, amended: with [0 <= tc <= horizon - 1] the frozen scalars change
    at the iteration of day [tc] only, to [S(tc)] and [(S(tc)+R(tc))^σ];
    every recorded index up to [tc] has CH = 0; the state computed by the
    iteration of day [tc] has CH > 0, and it is the recorded element of
    index [tc+1] whenever [tc <= horizon - 2]. *)
Theorem C3_freeze (p : ModelParameters) (x0 : state) (t0 : R)
  (n c : nat) (s_c : state) :
  tc p = Day (Z.of_nat c) -> (c < n)%nat ->
  κ0 p > 0 -> CH_ x0 = 0 ->
  nth_error (solve SEAIHRD_markov_step x0 t0 n p) c = Some s_c ->
  S_ s_c > 0 -> S_ s_c + R_ s_c > 0 ->
  (forall i, is_day (Z.of_nat i) (tc p) = true <-> i = c)
  /\ (forall m, (m <= n)%nat ->
        S_tc (solve_loop SEAIHRD_markov_step x0 n p m)
        = (if (m <=? c)%nat then 0 else S_ s_c)
        /\ CH_tc (solve_loop SEAIHRD_markov_step x0 n p m)
           = (if (m <=? c)%nat then 0 else rpow (S_ s_c + R_ s_c) (σ p)))
  /\ (forall i s, (i <= c)%nat ->
        nth_error (solve SEAIHRD_markov_step x0 t0 n p) i = Some s ->
        CH_ s = 0)
  /\ CH_ (xt (solve_loop SEAIHRD_markov_step x0 n p (c + 1))) > 0
  /\ ((c + 1 < n)%nat ->
      exists s, nth_error (solve SEAIHRD_markov_step x0 t0 n p) (c + 1)
                = Some s /\ CH_ s > 0).
Proof.
  intros Htc Hc Hκ H0 Hsc HS HSR.
  rewrite solve_nth_error in Hsc by assumption. injection Hsc as Hsc.
  assert (Hday : forall i, is_day (Z.of_nat i) (tc p) = true <-> i = c).
  { intros i. rewrite Htc. unfold is_day. rewrite Z.eqb_eq. lia. }
  assert (Hno : forall m i, (m <= c)%nat -> (i < m)%nat ->
                            is_day (Z.of_nat i) (tc p) = false).
  { intros m i Hm Hi. destruct (is_day (Z.of_nat i) (tc p)) eqn:E; auto.
    apply Hday in E. lia. }
  assert (Hpos : CH_ (xt (solve_loop SEAIHRD_markov_step x0 n p (c + 1))) > 0).
  { rewrite (CH_captured x0 n p c (c + 1) Htc) by lia. rewrite Hsc.
    assert (Hp := rpow_pos (S_ s_c + R_ s_c) (σ p) HSR).
    apply Rlt_gt. repeat apply Rmult_lt_0_compat; lra. }
  split; [exact Hday|]. split; [|split; [|split; [exact Hpos|]]].
  - intros m Hm. destruct (Nat.leb_spec m c) as [Hle|Hgt].
    + apply frozen_untouched. intros i Hi. now apply (Hno m).
    + rewrite <- Hsc. now apply frozen_captured.
  - intros i s Hi Hs. rewrite solve_nth_error in Hs by lia.
    injection Hs as <-. apply CH_untouched; [assumption|].
    intros j Hj. now apply (Hno i).
  - intros Hn. eexists. split; [apply solve_nth_error; lia | exact Hpos].
Qed.

Lemma C3_freeze_witness :
  (forall i, is_day (Z.of_nat i) (tc lockdown_params) = true <-> i = 0%nat)
  /\ (forall m, (m <= 3)%nat ->
        S_tc (solve_loop SEAIHRD_markov_step all_susceptible 3
                lockdown_params m)
        = (if (m <=? 0)%nat then 0 else S_ all_susceptible)
        /\ CH_tc (solve_loop SEAIHRD_markov_step all_susceptible 3
                    lockdown_params m)
           = (if (m <=? 0)%nat then 0
              else rpow (S_ all_susceptible + R_ all_susceptible)
                     (σ lockdown_params)))
  /\ (forall i s, (i <= 0)%nat ->
        nth_error (solve SEAIHRD_markov_step all_susceptible 0 3
                     lockdown_params) i = Some s ->
        CH_ s = 0)
  /\ CH_ (xt (solve_loop SEAIHRD_markov_step all_susceptible 3
                lockdown_params (0 + 1))) > 0
  /\ ((0 + 1 < 3)%nat ->
      exists s, nth_error (solve SEAIHRD_markov_step all_susceptible 0 3
                             lockdown_params) (0 + 1)
                = Some s /\ CH_ s > 0).
Proof.
  apply (C3_freeze lockdown_params all_susceptible 0 3 0 all_susceptible).
  - reflexivity.
  - lia.
  - cbn; lra.
  - reflexivity.
  - reflexivity.
  - cbn; lra.
  - cbn; lra.
Defined.

(** ** No intervention *)

Section NoIntervention.

Variable x0 : state.
Variable n : nat.
Variable p : ModelParameters.

Lemma never_before (i : nat) :
  never n p -> (i < n)%nat ->
  is_day (Z.of_nat i) (tc p) = false
  /\ Θ (Z.of_nat i) (tc p) = 0 /\ δ (Z.of_nat i) (tc p) = 0.
Proof.
  intros [-> | (d & -> & Hd)] Hi; [repeat split|].
  rewrite δ_is_day, is_day_before, Θ_before by lia. repeat split.
Qed.

Lemma never_same_state (κ : R) (m : nat) :
  never n p -> (m <= n)%nat ->
  xt (solve_loop SEAIHRD_markov_step x0 n p m)
  = xt (solve_loop SEAIHRD_markov_step x0 n (with_κ0 p κ) m).
Proof.
  intros Hnever. induction m as [|m IH]; intros Hm; [reflexivity|].
  rewrite !solve_loop_S. unfold solve_body; cbn [xt].
  destruct (never_before m Hnever) as (Hday & HΘ & Hδ); [lia|].
  rewrite <- IH by lia.
  now apply step_before.
Qed.

End NoIntervention.

(** C4: when the confinement day is never reached, the trajectory is the one
    obtained with [κ0 = 0] (all other parameters equal), and in both runs the
    frozen scalars are 0 after every iteration. *)
Theorem C4_no_intervention (p : ModelParameters) (x0 : state) (t0 : R)
  (n : nat) :
  never n p ->
  solve SEAIHRD_markov_step x0 t0 n p
  = solve SEAIHRD_markov_step x0 t0 n (with_κ0 p 0)
  /\ forall m, (m <= n)%nat ->
       S_tc (solve_loop SEAIHRD_markov_step x0 n p m) = 0
       /\ CH_tc (solve_loop SEAIHRD_markov_step x0 n p m) = 0
       /\ S_tc (solve_loop SEAIHRD_markov_step x0 n (with_κ0 p 0) m) = 0
       /\ CH_tc (solve_loop SEAIHRD_markov_step x0 n (with_κ0 p 0) m) = 0.
Proof.
  intros Hnever. split.
  - rewrite !solve_rows. apply map_ext_in. intros i Hi.
    apply in_seq in Hi. apply never_same_state; [assumption | lia].
  - intros m Hm.
    assert (Hno : forall i, (i < m)%nat ->
                            is_day (Z.of_nat i) (tc p) = false).
    { intros i Hi. apply (never_before n p i Hnever). lia. }
    destruct (frozen_untouched x0 n p SEAIHRD_markov_step m Hno) as [-> ->].
    destruct (frozen_untouched x0 n (with_κ0 p 0) SEAIHRD_markov_step m Hno)
      as [-> ->].
    repeat split.
Qed.

Lemma C4_no_intervention_witness :
  solve SEAIHRD_markov_step all_susceptible 0 5
    (mkParams (1/2) 10 (1/2) (1/2) (1/4) 0 (1/4) (1/4) (1/4) (1/2) 3 Inf)
  = solve SEAIHRD_markov_step all_susceptible 0 5
      (with_κ0
         (mkParams (1/2) 10 (1/2) (1/2) (1/4) 0 (1/4) (1/4) (1/4) (1/2) 3 Inf)
         0)
  /\ forall m, (m <= 5)%nat ->
       S_tc (solve_loop SEAIHRD_markov_step all_susceptible 5
               (mkParams (1/2) 10 (1/2) (1/2) (1/4) 0 (1/4) (1/4) (1/4)
                  (1/2) 3 Inf) m) = 0
       /\ CH_tc (solve_loop SEAIHRD_markov_step all_susceptible 5
                   (mkParams (1/2) 10 (1/2) (1/2) (1/4) 0 (1/4) (1/4) (1/4)
                      (1/2) 3 Inf) m) = 0
       /\ S_tc (solve_loop SEAIHRD_markov_step all_susceptible 5
                  (with_κ0
                     (mkParams (1/2) 10 (1/2) (1/2) (1/4) 0 (1/4) (1/4)
                        (1/4) (1/2) 3 Inf) 0) m) = 0
       /\ CH_tc (solve_loop SEAIHRD_markov_step all_susceptible 5
                   (with_κ0
                      (mkParams (1/2) 10 (1/2) (1/2) (1/4) 0 (1/4) (1/4)
                         (1/4) (1/2) 3 Inf) 0) m) = 0.
Proof.
  apply (C4_no_intervention
           (mkParams (1/2) 10 (1/2) (1/2) (1/4) 0 (1/4) (1/4) (1/4) (1/2) 3
              Inf)
           all_susceptible 0 5).
  left. reflexivity.
Defined.

(** ** Monotonicity of the cumulative compartments *)

Lemma step_fractions (x : state) (t : Z) (s c : R) (p : ModelParameters) :
  valid_params p -> fractions x ->
  0 <= δ t (tc p) * κ0 p * c <= 1 ->
  fractions (SEAIHRD_markov_step x t s c p)
  /\ R_ x <= R_ (SEAIHRD_markov_step x t s c p)
  /\ D_ x <= D_ (SEAIHRD_markov_step x t s c p).
Proof.
  intros (Hr & Ho & Hc & Hk) Hx Hf.
  destruct Hr as (Hβ & Hη & Hα & HγI & HμI & Hν & HγH & HμH).
  destruct Ho as (HoI & HoH). destruct Hc as (Hκ & Hσ).
  destruct Hx as (HS & HE & HA & HI & HH & HR & HD & Hsum).
  assert (HP := P_unit_interval (I_ x) (A_ x) t (β p) (k_avg p) (κ0 p)
                  (σ p) (tc p) Hβ ltac:(lra) Hk Hκ Hσ).
  unfold fractions, SEAIHRD_markov_step.
  cbn [S_ E_ CH_ A_ I_ H_ R_ D_].
  set (Pt := P (I_ x) (A_ x) t (β p) (k_avg p) (κ0 p) (σ p) (tc p)) in *.
  set (g := δ t (tc p) * κ0 p * c) in *.
  assert (HS1 : 0 <= S_ x * (1 - Pt)) by (apply Rmult_le_pos; lra).
  assert (HS2 : 0 <= S_ x * Pt) by (apply Rmult_le_pos; lra).
  assert (HS3 : 0 <= S_ x * (1 - Pt) * (1 - g)) by (apply Rmult_le_pos; lra).
  assert (HS4 : 0 <= S_ x * Pt * (1 - g)) by (apply Rmult_le_pos; lra).
  assert (HS5 : S_ x * (1 - Pt) * (1 - g) + S_ x * Pt * (1 - g) <= S_ x).
  { replace (S_ x * (1 - Pt) * (1 - g) + S_ x * Pt * (1 - g))
      with (S_ x * (1 - g)) by ring.
    rewrite <- (Rmult_1_r (S_ x)) at 2.
    apply Rmult_le_compat_l; lra. }
  assert (HE1 : 0 <= (1 - η p) * E_ x) by (apply Rmult_le_pos; lra).
  assert (HA1 : 0 <= η p * E_ x) by (apply Rmult_le_pos; lra).
  assert (HA2 : 0 <= (1 - α p) * A_ x) by (apply Rmult_le_pos; lra).
  assert (HI1 : 0 <= α p * A_ x) by (apply Rmult_le_pos; lra).
  assert (HI2 : 0 <= (1 - (γI p + μI p + ν p)) * I_ x)
    by (apply Rmult_le_pos; lra).
  assert (HH1 : 0 <= ν p * I_ x) by (apply Rmult_le_pos; lra).
  assert (HH2 : 0 <= (1 - (γH p + μH p)) * H_ x)
    by (apply Rmult_le_pos; lra).
  assert (HR1 : 0 <= γI p * I_ x) by (apply Rmult_le_pos; lra).
  assert (HR2 : 0 <= γH p * H_ x) by (apply Rmult_le_pos; lra).
  assert (HD1 : 0 <= μI p * I_ x) by (apply Rmult_le_pos; lra).
  assert (HD2 : 0 <= μH p * H_ x) by (apply Rmult_le_pos; lra).
  repeat split; lra.
Qed.

Section Monotone.

Variable x0 : state.
Variable n : nat.
Variable p : ModelParameters.
Hypothesis Hvalid : valid_params p.
Hypothesis Hx0 : fractions x0.

(** What the loop hands to the step as [CH_tc] on day [m] keeps the
    confinement factor inside [0,1]. *)
Lemma confinement_factor (m : nat) :
  fractions (xt (solve_loop SEAIHRD_markov_step x0 n p m)) ->
  0 <= δ (Z.of_nat m) (tc p) * κ0 p
       * CH_tc (solve_body SEAIHRD_markov_step p
                  (solve_loop SEAIHRD_markov_step x0 n p m) m) <= 1.
Proof.
  intros (HS & HE & HA & HI & HH & HR & HD & Hsum).
  destruct Hvalid as (_ & _ & (Hκ & Hσ) & _).
  unfold solve_body; cbn [CH_tc]. rewrite δ_is_day.
  destruct (is_day (Z.of_nat m) (tc p)); [|lra].
  set (y := xt (solve_loop SEAIHRD_markov_step x0 n p m)) in *.
  assert (Hp : 0 <= rpow (S_ y + R_ y) (σ p) <= 1)
    by (apply rpow_unit_interval; lra).
  split; [|nra].
  repeat apply Rmult_le_pos; lra.
Qed.

Lemma run_fractions (m : nat) :
  fractions (xt (solve_loop SEAIHRD_markov_step x0 n p m)).
Proof.
  induction m as [|m IH]; [exact Hx0|].
  assert (Hf := confinement_factor m IH).
  rewrite solve_loop_S.
  apply (step_fractions _ _ _ _ _ Hvalid IH Hf).
Qed.

Lemma run_monotone (m : nat) :
  R_ (xt (solve_loop SEAIHRD_markov_step x0 n p m))
  <= R_ (xt (solve_loop SEAIHRD_markov_step x0 n p (Datatypes.S m)))
  /\ D_ (xt (solve_loop SEAIHRD_markov_step x0 n p m))
     <= D_ (xt (solve_loop SEAIHRD_markov_step x0 n p (Datatypes.S m))).
Proof.
  assert (IH := run_fractions m).
  assert (Hf := confinement_factor m IH).
  rewrite solve_loop_S.
  apply (step_fractions _ _ _ _ _ Hvalid IH Hf).
Qed.

End Monotone.

(** The recurrences of the linear compartments along a run. *)
Section Recurrences.

Variable x0 : state.
Variable n : nat.
Variable p : ModelParameters.

Local Abbreviation X m := (xt (solve_loop SEAIHRD_markov_step x0 n p m)).

Lemma loop_A (m : nat) :
  A_ (X (Datatypes.S m)) = η p * E_ (X m) + (1 - α p) * A_ (X m).
Proof. rewrite solve_loop_S. reflexivity. Qed.

Lemma loop_I (m : nat) :
  I_ (X (Datatypes.S m))
  = α p * A_ (X m) + (1 - (γI p + μI p + ν p)) * I_ (X m).
Proof. rewrite solve_loop_S. reflexivity. Qed.

Lemma loop_H (m : nat) :
  H_ (X (Datatypes.S m))
  = ν p * I_ (X m) + (1 - (γH p + μH p)) * H_ (X m).
Proof. rewrite solve_loop_S. reflexivity. Qed.

Lemma loop_R (m : nat) :
  R_ (X (Datatypes.S m)) = γI p * I_ (X m) + γH p * H_ (X m) + R_ (X m).
Proof. rewrite solve_loop_S. reflexivity. Qed.

Lemma loop_D (m : nat) :
  D_ (X (Datatypes.S m)) = μI p * I_ (X m) + μH p * H_ (X m) + D_ (X m).
Proof. rewrite solve_loop_S. reflexivity. Qed.

(** The exposed compartment after the first step. *)
Lemma loop_E_first :
  E_ (X 1)
  = S_ x0 * P (I_ x0) (A_ x0) 0 (β p) (k_avg p) (κ0 p) (σ p) (tc p)
    * (1 - δ 0 (tc p) * κ0 p
           * (if is_day 0 (tc p) then rpow (S_ x0 + R_ x0) (σ p) else 0))
    + (1 - η p) * E_ x0.
Proof. reflexivity. Qed.

End Recurrences.

Lemma rpow_opp_1 (x : R) : 0 < x -> rpow x (-1) = / x.
Proof.
  intros Hx. unfold rpow. destruct (Req_dec_T x 0); [lra|].
  replace (-1) with (- (1)) by lra.
  rewrite Rpower_Ropp, Rpower_1; [reflexivity | assumption].
Qed.

(** Three steps after a negative exposed value, the recovered compartment
    drops: the common pattern of the examples below, for configurations
    with [η = α = γI = 1] and no other outflow. *)
Lemma recovered_drop (x0 : state) (n : nat) (p : ModelParameters) :
  η p = 1 -> α p = 1 -> γI p = 1 -> μI p = 0 -> ν p = 0 -> γH p = 0 ->
  R_ (xt (solve_loop SEAIHRD_markov_step x0 n p 4))
  - R_ (xt (solve_loop SEAIHRD_markov_step x0 n p 3))
  = E_ (xt (solve_loop SEAIHRD_markov_step x0 n p 1)).
Proof.
  intros Hη Hα HγI HμI Hν HγH.
  rewrite (loop_R x0 n p 3), (loop_I x0 n p 2), (loop_A x0 n p 1).
  rewrite Hη, Hα, HγI, HμI, Hν, HγH. ring.
Qed.

(** C5, as stated, fails in each of the three ways the hypotheses it lists
    leave open:
    - rates in [0,1] whose outflows sum above 1 drive the infected
      compartment negative ([eager_params]);
    - a non-negative initial state that holds more than the whole
      population makes the confinement factor negative ([oversized]);
    - a negative number of contacts makes the infection probability
      negative ([negative_contacts]).
    In each run the recovered compartment decreases. *)
Lemma C5_monotone_counterexample :
  (rates_in_unit eager_params /\ containment_valid eager_params
   /\ nonneg half_infected
   /\ exists s s',
        nth_error (solve SEAIHRD_markov_step half_infected 0 3 eager_params) 1
        = Some s
        /\ nth_error (solve SEAIHRD_markov_step half_infected 0 3
                        eager_params) (1 + 1) = Some s'
        /\ R_ s' < R_ s)
  /\ (rates_in_unit crowded_params /\ outflows_bounded crowded_params
      /\ containment_valid crowded_params /\ nonneg oversized
      /\ exists s s',
           nth_error (solve SEAIHRD_markov_step oversized 0 5 crowded_params)
             3 = Some s
           /\ nth_error (solve SEAIHRD_markov_step oversized 0 5
                           crowded_params) (3 + 1) = Some s'
           /\ R_ s' < R_ s)
  /\ (rates_in_unit negative_contacts /\ outflows_bounded negative_contacts
      /\ containment_valid negative_contacts /\ nonneg half_asymptomatic
      /\ total half_asymptomatic = 1
      /\ exists s s',
           nth_error (solve SEAIHRD_markov_step half_asymptomatic 0 5
                        negative_contacts) 3 = Some s
           /\ nth_error (solve SEAIHRD_markov_step half_asymptomatic 0 5
                           negative_contacts) (3 + 1) = Some s'
           /\ R_ s' < R_ s).
Proof.
  split; [|split].
  - unfold rates_in_unit, containment_valid, nonneg. cbn -[solve nth_error].
    repeat (split; [lra|]).
    do 2 eexists. split; [apply solve_nth_error; lia|].
    split; [apply solve_nth_error; lia|].
    cbn [Nat.add].
    rewrite (loop_R half_infected 3 eager_params 1),
            (loop_I half_infected 3 eager_params 0),
            (loop_H half_infected 3 eager_params 0),
            (loop_R half_infected 3 eager_params 0).
    cbn. lra.
  - unfold rates_in_unit, outflows_bounded, containment_valid, nonneg.
    cbn -[solve nth_error].
    repeat (split; [lra|]).
    do 2 eexists. split; [apply solve_nth_error; lia|].
    split; [apply solve_nth_error; lia|].
    cbn [Nat.add].
    assert (Hdrop := recovered_drop oversized 5 crowded_params
                       eq_refl eq_refl eq_refl eq_refl eq_refl eq_refl).
    assert (HE : E_ (xt (solve_loop SEAIHRD_markov_step oversized 5
                           crowded_params 1)) = -4).
    { rewrite loop_E_first. unfold P, k. cbn.
      replace (1 - 1) with 0 by lra.
      replace (((1 - 1 / 2 * 1) * 2 + 1 / 2 * 0 * 1) * (0 + 1)) with 1
        by lra.
      replace (4 + 0) with 4 by lra.
      rewrite rpow_0_l, rpow_1_r by lra. lra. }
    lra.
  - unfold rates_in_unit, outflows_bounded, containment_valid, nonneg, total.
    cbn -[solve nth_error].
    repeat (split; [lra|]).
    do 2 eexists. split; [apply solve_nth_error; lia|].
    split; [apply solve_nth_error; lia|].
    cbn [Nat.add].
    assert (Hdrop := recovered_drop half_asymptomatic 5 negative_contacts
                       eq_refl eq_refl eq_refl eq_refl eq_refl eq_refl).
    assert (HE : E_ (xt (solve_loop SEAIHRD_markov_step half_asymptomatic 5
                           negative_contacts 1)) = - (1 / 2)).
    { rewrite loop_E_first. unfold P, k. cbn.
      replace (1 - 1 / 2) with (1 / 2) by lra.
      replace (((1 - 0 * 0) * -2 + 0 * (1 - 1) * 0) * (0 + 1 / 2))
        with (-1) by lra.
      rewrite rpow_opp_1 by lra. lra. }
    lra.
Qed.

(** C5, amended: for a valid configuration (rates in [0,1], outflows of the
    infected and hospitalized compartments at most 1, non-negative contacts,
    [κ0] in [0,1], [σ >= 1]) and a non-negative initial state summing to at
    most 1, R and D never decrease from one recorded day to the next. *)
Theorem C5_monotone (p : ModelParameters) (x0 : state) (t0 : R)
  (n i : nat) (s s' : state) :
  valid_params p -> nonneg x0 -> total x0 <= 1 ->
  nth_error (solve SEAIHRD_markov_step x0 t0 n p) i = Some s ->
  nth_error (solve SEAIHRD_markov_step x0 t0 n p) (i + 1) = Some s' ->
  R_ s <= R_ s' /\ D_ s <= D_ s'.
Proof.
  intros Hp Hx Htot Hs Hs'.
  assert (Hi : (i + 1 < n)%nat).
  { rewrite <- (solve_length SEAIHRD_markov_step x0 p t0 n).
    apply nth_error_Some. congruence. }
  rewrite solve_nth_error in Hs, Hs' by lia.
  injection Hs as <-. injection Hs' as <-.
  rewrite Nat.add_1_r. apply run_monotone; [assumption|].
  destruct Hx as (HS & HE & HCH & HA & HI & HH & HR & HD).
  unfold total in Htot. unfold fractions. repeat split; lra.
Qed.

Lemma C5_monotone_witness :
  exists s s',
    nth_error (solve SEAIHRD_markov_step half_asymptomatic 0 4
                 crowded_params) 2 = Some s
    /\ nth_error (solve SEAIHRD_markov_step half_asymptomatic 0 4
                    crowded_params) (2 + 1) = Some s'
    /\ R_ s <= R_ s' /\ D_ s <= D_ s'.
Proof.
  do 2 eexists. split; [apply solve_nth_error; lia|].
  split; [apply solve_nth_error; lia|].
  apply (C5_monotone crowded_params half_asymptomatic 0 4 2).
  - unfold valid_params, rates_in_unit, outflows_bounded, containment_valid.
    cbn. repeat split; lra.
  - unfold nonneg. cbn. repeat split; lra.
  - unfold total. cbn. lra.
  - apply solve_nth_error; lia.
  - apply solve_nth_error; lia.
Defined.

(** ** Mean absolute error *)

Lemma np_sub_same_length (a b : list R) :
  length a = length b ->
  np_sub a b = Value (map (fun ab => fst ab - snd ab) (combine a b)).
Proof. intros H. unfold np_sub. now rewrite H, Nat.eqb_refl. Qed.

(** A projection shorter than the observed series cannot be subtracted from
    it, unless one of the two has length 1. *)
Lemma MAE_shorter_projection (x y : list R) :
  (length y < length x)%nat -> length y <> 1%nat -> length x <> 1%nat ->
  MAE x y = Raises.
Proof.
  intros Hlt Hy Hx. unfold MAE, np_sub.
  rewrite firstn_all2 by lia.
  destruct (Nat.eqb_spec (length x) (length y)); [lia|].
  destruct (Nat.eqb_spec (length y) 1); [lia|].
  destruct (Nat.eqb_spec (length x) 1); [lia|].
  reflexivity.
Qed.

Lemma MAE_front_window (x y : list R) :
  x <> [] -> (length x <= length y)%nat ->
  MAE x y = Value (MAE_front x y).
Proof.
  intros Hx Hle. unfold MAE, MAE_front.
  rewrite np_sub_same_length by (rewrite length_firstn; lia).
  rewrite Nat.min_l by assumption. rewrite firstn_all.
  cbn [bind]. rewrite map_map.
  set (d := map (fun ab => Rabs (fst ab - snd ab))
              (combine x (firstn (length x) y))).
  assert (Hlen : length d = length x).
  { unfold d. rewrite length_map, length_combine, length_firstn. lia. }
  destruct d as [|a d'] eqn:Hd.
  - destruct x; [contradiction | discriminate].
  - unfold np_mean. now rewrite Hlen.
Qed.

(** C7, as stated, fails: the code cuts the projection to the length of the
    observed series, not the other way round; a projection of two days
    against three observations is a shape error. *)
Lemma C7_MAE_counterexample :
  MAE [1; 2; 3] [1; 2] = Raises
  /\ MAE [1; 2; 3] [1; 2] <> Value (MAE_front [1; 2; 3] [1; 2]).
Proof.
  assert (H : MAE [1; 2; 3] [1; 2] = Raises)
    by (apply MAE_shorter_projection; cbn; lia).
  split; [exact H | rewrite H; discriminate].
Qed.

(** C7, amended: when the observed series is not empty and the projection is
    at least as long, the result is the mean absolute difference over the
    first [len(observed)] elements, which is then the overlapping front
    window. *)
Theorem C7_MAE (observed projection : list R) :
  observed <> [] -> (length observed <= length projection)%nat ->
  MAE observed projection = Value (MAE_front observed projection)
  /\ Nat.min (length observed) (length projection) = length observed.
Proof.
  intros Hx Hle. split; [now apply MAE_front_window | lia].
Qed.

Lemma C7_MAE_witness :
  MAE [1; 2] [3; 5; 8] = Value (MAE_front [1; 2] [3; 5; 8])
  /\ Nat.min (length [1; 2]) (length [3; 5; 8]) = length [1; 2].
Proof.
  apply (C7_MAE [1; 2] [3; 5; 8]); [discriminate | cbn; lia].
Defined.

(** ** Aggregation over regions *)

Lemma vadd_length (a b : list R) :
  length a = length b -> length (vadd a b) = length a.
Proof.
  intros H. unfold vadd. rewrite length_map, length_combine. lia.
Qed.

Lemma vadd_nth (a b : list R) (d : nat) :
  length a = length b ->
  nth d (vadd a b) 0 = nth d a 0 + nth d b 0.
Proof.
  revert b d. induction a as [|u a IH]; intros [|v b] d H;
    try discriminate.
  - destruct d; cbn; lra.
  - destruct d as [|d]; cbn; [reflexivity|].
    apply IH. now injection H.
Qed.

(** Adding up rows of one length, row after row. *)
Lemma fold_vadd_length (rows : list (list R)) (r : list R) :
  Forall (fun r' => length r' = length r) rows ->
  length (fold_left vadd rows r) = length r.
Proof.
  revert r. induction rows as [|r' rows IH]; intros r Hall; [reflexivity|].
  inversion Hall as [|? ? Hr' Hrest]; subst. cbn.
  rewrite IH; [now apply vadd_length|].
  rewrite vadd_length by auto. exact Hrest.
Qed.

Lemma fold_vadd_nth (rows : list (list R)) (r : list R) (d : nat) :
  Forall (fun r' => length r' = length r) rows ->
  nth d (fold_left vadd rows r) 0
  = nth d r 0 + rsum (map (fun r' => nth d r' 0) rows).
Proof.
  revert r. induction rows as [|r' rows IH]; intros r Hall.
  - cbn. lra.
  - inversion Hall as [|? ? Hr' Hrest]; subst.
    cbn [fold_left map]. unfold rsum; cbn [fold_right]; fold rsum.
    rewrite IH by (rewrite vadd_length by auto; exact Hrest).
    rewrite vadd_nth by auto. unfold rsum. lra.
Qed.

Lemma np_sum_axis0_rows (rows : list (list R)) (n : nat) :
  rows <> [] -> Forall (fun r => length r = n) rows ->
  exists v,
    np_sum_axis0 rows = Value (NpArray v) /\ length v = n
    /\ forall d, nth d v 0 = rsum (map (fun r => nth d r 0) rows).
Proof.
  intros Hne Hall. destruct rows as [|r rows]; [contradiction|].
  inversion Hall as [|? ? Hr Hrest]; subst.
  assert (Hsame : Forall (fun r' => length r' = length r) rows) by exact Hrest.
  exists (fold_left vadd rows r). cbn [np_sum_axis0].
  replace (forallb _ rows) with true.
  - split; [reflexivity|]. split; [now apply fold_vadd_length|].
    intros d. rewrite fold_vadd_nth by assumption. reflexivity.
  - symmetry. apply forallb_forall. intros r' Hin.
    apply Nat.eqb_eq. rewrite Forall_forall in Hsame. now apply Hsame.
Qed.

Lemma partial_sums_length (sol : list state) :
  length (vadd (Infected sol) (Hospitalized sol)) = length sol
  /\ length (vadd (vadd (Infected sol) (Hospitalized sol)) (Recovered sol))
     = length sol.
Proof.
  unfold Infected, Hospitalized, Recovered.
  assert (H1 : length (vadd (map I_ sol) (map H_ sol)) = length sol)
    by (rewrite vadd_length; now rewrite !length_map).
  split; [exact H1|].
  rewrite vadd_length; [exact H1 | now rewrite H1, length_map].
Qed.

Lemma TotalCases_length (sol : list state) :
  length (TotalCases sol) = length sol.
Proof.
  destruct (partial_sums_length sol) as [H1 H2].
  unfold TotalCases. rewrite vadd_length; [exact H2|].
  unfold Deceased. now rewrite H2, length_map.
Qed.

Lemma TotalCases_nth (sol : list state) (d : nat) :
  nth d (TotalCases sol) 0 = total_cases (nth d sol zero_state).
Proof.
  destruct (partial_sums_length sol) as [H1 H2].
  unfold TotalCases.
  rewrite vadd_nth by (unfold Deceased; now rewrite H2, length_map).
  rewrite vadd_nth by (unfold Recovered; now rewrite H1, length_map).
  rewrite vadd_nth by (unfold Infected, Hospitalized; now rewrite !length_map).
  unfold total_cases, Infected, Hospitalized, Recovered, Deceased.
  change 0 with (I_ zero_state) at 1. rewrite map_nth.
  change 0 with (H_ zero_state) at 1. rewrite map_nth.
  change 0 with (R_ zero_state) at 1. rewrite map_nth.
  change 0 with (D_ zero_state) at 1. rewrite map_nth.
  reflexivity.
Qed.

(** C8: the national total cases of day [d] is the sum over the regions of
    each region's total cases (I+H+R+D) of day [d].  The trajectories of one
    scenario share the horizon [n]; at least one region is given. *)
Theorem C8_aggregation_additive (sol_per_state : list (list state))
  (n d : nat) :
  sol_per_state <> [] ->
  Forall (fun sol => length sol = n) sol_per_state ->
  (d < n)%nat ->
  exists national,
    CasesAggregation sol_per_state TotalCases = Value (NpArray national)
    /\ length national = n
    /\ nth_error national d
       = Some (rsum (map (fun sol => total_cases (nth d sol zero_state))
                       sol_per_state)).
Proof.
  intros Hne Hall Hd. unfold CasesAggregation.
  destruct (np_sum_axis0_rows (map TotalCases sol_per_state) n)
    as (v & Hv & Hlen & Hnth).
  - destruct sol_per_state; [contradiction | discriminate].
  - apply Forall_map. eapply Forall_impl; [|exact Hall].
    intros sol Hsol. cbn. now rewrite TotalCases_length.
  - exists v. split; [exact Hv|]. split; [exact Hlen|].
    rewrite (nth_error_nth' v 0) by lia. f_equal.
    rewrite Hnth, map_map. f_equal.
    apply map_ext. intros sol. apply TotalCases_nth.
Qed.

Lemma C8_aggregation_additive_witness :
  exists national,
    CasesAggregation
      [[all_susceptible; half_infected]; [half_infected; all_confined]]
      TotalCases = Value (NpArray national)
    /\ length national = 2%nat
    /\ nth_error national 1
       = Some (rsum (map (fun sol => total_cases (nth 1 sol zero_state))
                       [[all_susceptible; half_infected];
                        [half_infected; all_confined]])).
Proof.
  apply (C8_aggregation_additive
           [[all_susceptible; half_infected]; [half_infected; all_confined]]
           2 1).
  - discriminate.
  - repeat constructor.
  - lia.
Defined.

(** ** Calibration *)

(** Every projection of a scenario has [n_days] rows. *)
Lemma projections_length (g : globals) (r κ : R) :
  Forall (fun sol => length sol = n_days g) (projections g r κ).
Proof.
  unfold projections. apply Forall_map, Forall_forall. intros reg _.
  unfold scale. now rewrite length_map, solve_length.
Qed.

Lemma solve_national_array (g : globals) (r κ : R) :
  states_mex g <> [] ->
  exists v, solve_national g r κ = Value (NpArray v)
            /\ length v = n_days g.
Proof.
  intros Hne. unfold solve_national, CasesAggregation.
  destruct (np_sum_axis0_rows (map TotalCases (projections g r κ))
              (n_days g)) as (v & Hv & Hlen & _).
  - unfold projections. destruct (states_mex g); [contradiction|discriminate].
  - apply Forall_map. eapply Forall_impl; [|apply projections_length].
    intros sol Hsol. cbn. now rewrite TotalCases_length.
  - exists v. split; assumption.
Qed.

(** With at least one region and an observed series that fits in the
    horizon, every candidate has a fit error. *)
Lemma fit_error_defined (g : globals) (data : list R) (r : R) :
  states_mex g <> [] -> data <> [] -> (length data <= n_days g)%nat ->
  exists m, fit_error g data r = Value m.
Proof.
  intros Hg Hd Hlen.
  destruct (solve_national_array g r 0 Hg) as (v & Hv & Hn).
  unfold fit_error. rewrite Hv. cbn [bind].
  exists (MAE_front data v). apply MAE_front_window; [assumption | lia].
Qed.

Lemma cross_validation_real (g : globals) (data r_range : list R) :
  (forall r, In r r_range -> exists m, fit_error g data r = Value m) ->
  exists mae_range,
    cross_validation g data r_range = Value (map Num mae_range)
    /\ length mae_range = length r_range
    /\ forall j rj, nth_error r_range j = Some rj ->
         exists mj, nth_error mae_range j = Some mj
                    /\ fit_error g data rj = Value mj.
Proof.
  induction r_range as [|r rest IH]; intros Hdef.
  - exists []. repeat split. intros [|j] rj H; discriminate.
  - destruct (Hdef r (or_introl eq_refl)) as [m Hm].
    destruct IH as (ms & Hms & Hlen & Hnth).
    { intros r' Hin. apply Hdef. now right. }
    exists (m :: ms). cbn [cross_validation]. rewrite Hm, Hms.
    cbn [as_fnum bind map].
    split; [reflexivity|]. split; [cbn; now rewrite Hlen|].
    intros [|j] rj Hj; cbn in Hj.
    + injection Hj as <-. exists m. split; [reflexivity | exact Hm].
    + apply Hnth. exact Hj.
Qed.

(** When every mean is [nan] the list holds [nan] at every position. *)
Lemma cross_validation_nan (g : globals) (data r_range : list R) :
  (forall r, In r r_range -> fit_error g data r = NaN) ->
  cross_validation g data r_range = Value (map (fun _ => Nan) r_range).
Proof.
  induction r_range as [|r rest IH]; intros Hnan; [reflexivity|].
  cbn [cross_validation map]. rewrite (Hnan r (or_introl eq_refl)).
  rewrite IH by (intros r' Hin; apply Hnan; now right).
  reflexivity.
Qed.

(** Python's [min] returns a lower bound that occurs in the list. *)
Lemma fold_min_spec (rest : list R) (a : R) :
  let m := fold_left (fun m v => if Rlt_dec v m then v else m) rest a in
  m <= a /\ (forall v, In v rest -> m <= v) /\ (m = a \/ In m rest).
Proof.
  revert a. induction rest as [|b rest IH]; intros a; cbn.
  - split; [lra|]. split; [contradiction | now left].
  - destruct (Rlt_dec b a) as [Hlt|Hge].
    + destruct (IH b) as (Hb & Hall & Hin).
      split; [lra|]. split.
      * intros v [<-|Hv]; [exact Hb | now apply Hall].
      * right. destruct Hin as [->|Hin]; [now left | now right].
    + destruct (IH a) as (Ha & Hall & Hin).
      split; [exact Ha|]. split.
      * intros v [<-|Hv]; [lra | now apply Hall].
      * destruct Hin as [->|Hin]; [now left | right; now right].
Qed.

Lemma py_min_spec (l : list R) :
  l <> [] ->
  exists m, py_min l = Value m /\ In m l /\ forall v, In v l -> m <= v.
Proof.
  intros Hne. destruct l as [|a rest]; [contradiction|].
  destruct (fold_min_spec rest a) as (Ha & Hall & Hin).
  eexists. split; [reflexivity|]. split.
  - destruct Hin as [->|Hin]; [now left | now right].
  - intros v [<-|Hv]; [exact Ha | now apply Hall].
Qed.

(** [list.index] finds the first position of a value that occurs. *)
Lemma py_index_spec (v : R) (l : list R) :
  In v l ->
  exists i, py_index v l = Value i /\ nth_error l i = Some v
            /\ forall j u, (j < i)%nat -> nth_error l j = Some u -> u <> v.
Proof.
  induction l as [|a rest IH]; intros Hin; [contradiction|].
  cbn [py_index]. destruct (Req_dec_T a v) as [->|Hne].
  - exists 0%nat. repeat split. intros j u Hj. lia.
  - destruct Hin as [Heq|Hin]; [contradiction|].
    destruct (IH Hin) as (i & Hi & Hnth & Hfirst).
    exists (Datatypes.S i). rewrite Hi. cbn [bind].
    split; [reflexivity|]. split; [exact Hnth|].
    intros [|j] u Hj Hu; cbn in Hu.
    + injection Hu as <-. exact Hne.
    + apply (Hfirst j); [lia | exact Hu].
Qed.

Lemma r_min_spec (r_range mae_range : list R) :
  r_range <> [] -> length mae_range = length r_range ->
  exists i r m,
    r_min r_range mae_range = Value r
    /\ nth_error r_range i = Some r /\ nth_error mae_range i = Some m
    /\ forall j mj, nth_error mae_range j = Some mj ->
         m <= mj /\ ((j < i)%nat -> m < mj).
Proof.
  intros Hne Hlen.
  assert (Hms : mae_range <> []).
  { destruct mae_range; [|discriminate].
    destruct r_range; [contradiction | discriminate]. }
  destruct (py_min_spec mae_range Hms) as (m & Hmin & Hin & Hle).
  destruct (py_index_spec m mae_range Hin) as (i & Hi & Hnth & Hfirst).
  assert (Hir : (i < length r_range)%nat).
  { rewrite <- Hlen. apply nth_error_Some. congruence. }
  destruct (nth_error r_range i) as [r|] eqn:Hr;
    [|apply nth_error_None in Hr; lia].
  exists i, r, m. unfold r_min. rewrite Hmin. cbn [bind].
  rewrite Hi. cbn [bind]. unfold py_getitem. rewrite Hr.
  repeat split; try assumption.
  - apply Hle. eapply nth_error_In. eassumption.
  - intros Hj.
    assert (Hle' : m <= mj) by (apply Hle; eapply nth_error_In; eassumption).
    assert (Hneq : mj <> m) by (apply (Hfirst j); assumption).
    lra.
Qed.

(** On a list of real numbers the running minimum of [min_from] is the one
    of [py_min], and it stands at the position that is returned. *)
Lemma min_from_real (rest pre : list R) (j pos : nat) (a : R) :
  length pre = j -> nth_error pre pos = Some a ->
  exists pos',
    min_from j pos (Num a) (map Num rest)
    = (pos', Num (fold_left (fun m v => if Rlt_dec v m then v else m) rest a))
    /\ nth_error (pre ++ rest) pos'
       = Some (fold_left (fun m v => if Rlt_dec v m then v else m) rest a).
Proof.
  revert pre j pos a. induction rest as [|v rest IH]; intros pre j pos a Hj Ha.
  - exists pos. cbn. split; [reflexivity|].
    rewrite app_nil_r. exact Ha.
  - cbn [map min_from flt fold_left].
    assert (Hpos : (pos < length pre)%nat)
      by (apply nth_error_Some; congruence).
    destruct (Rlt_dec v a) as [Hlt|Hge].
    + destruct (IH (pre ++ [v]) (Datatypes.S j) j v) as (pos' & Hm & Hn).
      * rewrite length_app. cbn. lia.
      * rewrite nth_error_app2 by lia. rewrite Hj, Nat.sub_diag. reflexivity.
      * exists pos'. split; [exact Hm|].
        rewrite <- app_assoc in Hn. exact Hn.
    + destruct (IH (pre ++ [v]) (Datatypes.S j) pos a) as (pos' & Hm & Hn).
      * rewrite length_app. cbn. lia.
      * rewrite nth_error_app1 by assumption. exact Ha.
      * exists pos'. split; [exact Hm|].
        rewrite <- app_assoc in Hn. exact Hn.
Qed.

Lemma py_index_obj_real (l : list R) (j pos : nat) (v : R) :
  (j <= pos)%nat -> nth_error l (pos - j) = Some v ->
  py_index_obj pos (Num v) j (map Num l)
  = bind (py_index v l) (fun i => Value (j + i)%nat).
Proof.
  revert j. induction l as [|a rest IH]; intros j Hj Hnth.
  - destruct (pos - j)%nat; discriminate.
  - cbn [map py_index_obj py_index feq].
    destruct (Req_dec_T a v) as [->|Hne].
    + rewrite orb_true_r. cbn [bind]. now rewrite Nat.add_0_r.
    + rewrite orb_false_r.
      destruct (Nat.eqb_spec j pos) as [->|Hjp].
      * rewrite Nat.sub_diag in Hnth. cbn in Hnth. congruence.
      * rewrite IH.
        -- destruct (py_index v rest) as [i| |]; cbn [bind];
             [f_equal; lia | reflexivity | reflexivity].
        -- lia.
        -- replace (pos - j)%nat with (Datatypes.S (pos - Datatypes.S j))
             in Hnth by lia.
           exact Hnth.
Qed.

(** On an error list without [nan], the selection is [r_min]. *)
Lemma r_min_floats_real (r_range mae_range : list R) :
  r_min_floats r_range (map Num mae_range) = r_min r_range mae_range.
Proof.
  destruct mae_range as [|a rest]; [reflexivity|].
  unfold r_min_floats, r_min. cbn [map py_min_obj py_min bind].
  destruct (min_from_real rest [a] 1 0 a eq_refl eq_refl)
    as (pos' & Hm & Hn).
  rewrite Hm. cbn [fst snd].
  change (Num a :: map Num rest) with (map Num (a :: rest)).
  rewrite py_index_obj_real; [| lia | now rewrite Nat.sub_0_r].
  destruct (py_index _ (a :: rest)) as [i| |]; reflexivity.
Qed.

(** A [nan] at the head of the error list is what [min] returns, and its
    position is 0: the first candidate is selected. *)
Lemma min_from_nan (l : list fnum) (j pos : nat) :
  min_from j pos Nan l = (pos, Nan).
Proof.
  revert j. induction l as [|v rest IH]; intros j; [reflexivity|].
  cbn [min_from]. replace (flt v Nan) with false by (now destruct v).
  apply IH.
Qed.

Lemma r_min_floats_nan_head (r : R) (r_range : list R) (l : list fnum) :
  r_min_floats (r :: r_range) (Nan :: l) = Value r.
Proof.
  unfold r_min_floats. cbn [py_min_obj bind]. rewrite min_from_nan.
  reflexivity.
Qed.

(** The mean over an empty observed series is [nan], whatever the
    projection. *)
Lemma fit_error_empty_data (g : globals) (r : R) :
  states_mex g <> [] -> fit_error g [] r = NaN.
Proof.
  intros Hg. destruct (solve_national_array g r 0 Hg) as (v & Hv & _).
  unfold fit_error. rewrite Hv. reflexivity.
Qed.

(** A valid run stays where the float power is a real number: the base of
    the infection probability is in [0,1] with a non-negative exponent, and
    [S + R], the base of the captured power, is non-negative. *)
Lemma valid_run_powers_defined (p : ModelParameters) (x0 : state)
  (n m : nat) :
  valid_params p -> nonneg x0 -> total x0 <= 1 ->
  pow_defined (1 - β p)
    (k (Z.of_nat m) (k_avg p) (κ0 p) (σ p) (tc p)
     * (I_ (xt (solve_loop SEAIHRD_markov_step x0 n p m))
        + A_ (xt (solve_loop SEAIHRD_markov_step x0 n p m))))
  /\ pow_defined (S_ (xt (solve_loop SEAIHRD_markov_step x0 n p m))
                  + R_ (xt (solve_loop SEAIHRD_markov_step x0 n p m)))
                 (σ p).
Proof.
  intros Hp Hx Htot.
  assert (Hfr : fractions x0).
  { destruct Hx as (HS & HE & HCH & HA & HI & HH & HR & HD).
    unfold total in Htot. unfold fractions. repeat split; lra. }
  destruct (run_fractions x0 n p Hp Hfr m)
    as (HS & HE & HA & HI & HH & HR & HD & H7).
  destruct Hp as ((Hβ & _) & _ & (Hκ & Hσ) & Hk).
  assert (Hkk := k_nonneg (Z.of_nat m) (k_avg p) (κ0 p) (σ p) (tc p)
                   Hk Hκ Hσ).
  set (y := xt (solve_loop SEAIHRD_markov_step x0 n p m)) in *.
  unfold pow_defined. split.
  - destruct (Req_dec_T (1 - β p) 0) as [E|N]; [right | left; lra].
    split; [exact E | apply Rmult_le_pos; lra].
  - destruct (Req_dec_T (S_ y + R_ y) 0) as [E|N]; [right | left; lra].
    split; [exact E | lra].
Qed.

(** C6, as stated, fails in two ways.
    - An observed series longer than the projection: every fit error is a
      shape error and the calibration raises instead of returning.
    - Inputs on which the projection is not a series of real numbers.  With
      confinement on day 0, 100 confirmed cases in 1000 inhabitants and the
      candidate [r = 100] listed first, the initial [S + R] is negative and
      the captured power [(S+R)^3.7] is [nan]; the [nan] spreads to this
      candidate's projection and MAE, [min] keeps a leading [nan], and the
      code returns [r = 100] although the candidate [r = 0] has a finite
      MAE.  A region of population 0 makes every MAE [nan] in the same
      way. *)
Lemma C6_calibrate_counterexample :
  ([0] <> @nil R /\ calibrate two_days [0; 0; 0] [0] = Raises)
  /\ ([100; 0] <> @nil R
      /\ tc early_tc_params = Day 0
      /\ S_ (initial_conditions tenth_confirmed 100)
         + R_ (initial_conditions tenth_confirmed 100) < 0
      /\ ~ pow_defined (S_ (initial_conditions tenth_confirmed 100)
                        + R_ (initial_conditions tenth_confirmed 100))
                       (σ early_tc_params)
      /\ valid_data tenth_confirmed 0
      /\ ~ valid_data tenth_confirmed 100).
Proof.
  split.
  - split; [discriminate|].
    destruct (solve_national_array two_days 0 0) as (v & Hv & Hlen);
      [discriminate|].
    unfold calibrate. cbn [cross_validation]. unfold fit_error.
    rewrite Hv. cbn [bind].
    rewrite MAE_shorter_projection; [reflexivity | | |];
      rewrite ?Hlen; cbn; lia.
  - assert (Hneg : S_ (initial_conditions tenth_confirmed 100)
                   + R_ (initial_conditions tenth_confirmed 100) < 0).
    { unfold initial_conditions, tenth_confirmed. cbn. lra. }
    split; [discriminate|]. split; [reflexivity|]. split; [exact Hneg|].
    split; [|split].
    + unfold pow_defined. intros [H | [H _]]; lra.
    + unfold valid_data, tenth_confirmed. cbn. repeat split; lra.
    + unfold valid_data, tenth_confirmed. cbn.
      intros (_ & _ & _ & _ & _ & H). lra.
Qed.

(** C6, amended: for a valid no-containment configuration, at least one
    region, data that give a population distribution for every candidate,
    an observed series no longer than the horizon and a non-empty candidate
    list, the calibration returns a candidate.  When the observed series is
    not empty it is the candidate of minimal MAE against the no-containment
    national projection, and every candidate before it has a strictly
    larger MAE (first occurrence wins ties); when the observed series is
    empty every MAE is [nan] and the first candidate is returned.  Being a
    function of the grid and the series, it returns the same [r] on the
    same inputs. *)
Theorem C6_calibrate (g : globals) (data r_range : list R) :
  valid_params (with_κ0 (constants g) 0) ->
  states_mex g <> [] ->
  (forall reg r, In reg (states_mex g) -> In r r_range ->
                 valid_data reg r) ->
  (length data <= n_days g)%nat ->
  r_range <> [] ->
  exists i r,
    calibrate g data r_range = Value r
    /\ (forall r', calibrate g data r_range = Value r' -> r' = r)
    /\ nth_error r_range i = Some r
    /\ (data <> [] ->
        exists m,
          fit_error g data r = Value m
          /\ forall j rj, nth_error r_range j = Some rj ->
               exists mj, fit_error g data rj = Value mj
                          /\ m <= mj /\ ((j < i)%nat -> m < mj))
    /\ (data = [] ->
        i = 0%nat
        /\ forall rj, In rj r_range -> fit_error g data rj = NaN).
Proof.
  intros _ Hg _ Hlen Hr.
  destruct data as [|d0 data'].
  - destruct r_range as [|r0 rest]; [contradiction|].
    assert (Hnan : forall r, In r (r0 :: rest) -> fit_error g [] r = NaN)
      by (intros r _; now apply fit_error_empty_data).
    assert (Hcal : calibrate g [] (r0 :: rest) = Value r0).
    { unfold calibrate. rewrite (cross_validation_nan g [] _ Hnan).
      cbn [bind map]. apply r_min_floats_nan_head. }
    exists 0%nat, r0. split; [exact Hcal|].
    split; [intros r' Hr'; congruence|]. split; [reflexivity|].
    split; [intros Hc; contradiction|].
    intros _. split; [reflexivity | exact Hnan].
  - set (data := d0 :: data') in *.
    destruct (cross_validation_real g data r_range)
      as (ms & Hms & Hl & Hnth).
    { intros r _. apply fit_error_defined;
        [assumption | discriminate | assumption]. }
    destruct (r_min_spec r_range ms Hr Hl)
      as (i & r & m & Hmin & Hri & Hmi & Hle).
    assert (Hcal : calibrate g data r_range = Value r).
    { unfold calibrate. rewrite Hms. cbn [bind].
      now rewrite r_min_floats_real. }
    exists i, r. split; [exact Hcal|].
    split; [intros r' Hr'; congruence|]. split; [exact Hri|].
    split; [|intros Hc; discriminate].
    intros _. exists m.
    destruct (Hnth i r Hri) as (m' & Hm' & Hfit).
    assert (m' = m) by congruence. subst m'.
    split; [exact Hfit|].
    intros j rj Hj. destruct (Hnth j rj Hj) as (mj & Hmj & Hfj).
    exists mj. split; [exact Hfj|]. now apply Hle.
Qed.

Lemma sample_no_containment_valid :
  valid_params (with_κ0 sample_params 0).
Proof.
  unfold valid_params, rates_in_unit, outflows_bounded, containment_valid.
  cbn. repeat split; lra.
Qed.

Lemma one_region_valid_data (reg : region) (r : R) :
  In reg (states_mex one_region) -> In r [0; 1] -> valid_data reg r.
Proof.
  intros [<- | []] [<- | [<- | []]];
    unfold valid_data; cbn; repeat split; lra.
Qed.

Lemma C6_calibrate_witness :
  exists i r,
    calibrate one_region [10; 12] [0; 1] = Value r
    /\ (forall r', calibrate one_region [10; 12] [0; 1] = Value r' -> r' = r)
    /\ nth_error [0; 1] i = Some r
    /\ ([10; 12] <> [] ->
        exists m,
          fit_error one_region [10; 12] r = Value m
          /\ forall j rj, nth_error [0; 1] j = Some rj ->
               exists mj, fit_error one_region [10; 12] rj = Value mj
                          /\ m <= mj /\ ((j < i)%nat -> m < mj))
    /\ ([10; 12] = [] ->
        i = 0%nat
        /\ forall rj, In rj [0; 1] ->
             fit_error one_region [10; 12] rj = NaN).
Proof.
  apply (C6_calibrate one_region [10; 12] [0; 1]).
  - exact sample_no_containment_valid.
  - discriminate.
  - exact one_region_valid_data.
  - cbn. lia.
  - discriminate.
Defined.

(** The calibration at work: one region of 1000 inhabitants with 10
    confirmed cases, observed series 10, 12.  The projection of day 1 is
    [10 + 5/2·r], so the candidate 0 has MAE 1 and the candidate 1 has
    MAE 1/4: the second candidate is returned. *)
Lemma one_region_projection (r : R) :
  solve_national one_region r 0 = Value (NpArray [10; 10 + 5 / 2 * r]).
Proof.
  unfold solve_national, CasesAggregation, projections, one_region.
  cbn. do 2 f_equal. f_equal; [lra | f_equal; lra].
Qed.

Lemma one_region_fit_error (r : R) :
  fit_error one_region [10; 12] r = Value (Rabs (2 - 5 / 2 * r) / 2).
Proof.
  unfold fit_error. rewrite one_region_projection. cbn [bind].
  rewrite MAE_front_window by (try discriminate; cbn; lia).
  unfold MAE_front, rsum. cbn. f_equal.
  replace (10 - 10) with 0 by lra. rewrite Rabs_R0.
  replace (12 - (10 + 5 / 2 * r)) with (2 - 5 / 2 * r) by lra.
  lra.
Qed.

Example calibrate_prefers_better_fit :
  fit_error one_region [10; 12] 0 = Value 1
  /\ fit_error one_region [10; 12] 1 = Value (1 / 4)
  /\ calibrate one_region [10; 12] [0; 1] = Value 1.
Proof.
  assert (H0 : fit_error one_region [10; 12] 0 = Value 1).
  { rewrite one_region_fit_error. f_equal.
    replace (2 - 5 / 2 * 0) with 2 by lra. rewrite Rabs_pos_eq; lra. }
  assert (H1 : fit_error one_region [10; 12] 1 = Value (1 / 4)).
  { rewrite one_region_fit_error. f_equal.
    replace (2 - 5 / 2 * 1) with (- (1 / 2)) by lra.
    rewrite Rabs_Ropp, Rabs_pos_eq; lra. }
  split; [exact H0|]. split; [exact H1|].
  unfold calibrate. cbn [cross_validation]. rewrite H0, H1.
  cbn [as_fnum bind].
  change [Num 1; Num (1 / 4)] with (map Num [1; 1 / 4]).
  rewrite r_min_floats_real.
  unfold r_min, py_min. cbn [fold_left].
  destruct (Rlt_dec (1 / 4) 1); [|lra].
  cbn [bind py_index].
  destruct (Req_dec_T 1 (1 / 4)); [lra|].
  destruct (Req_dec_T (1 / 4) (1 / 4)); [|lra].
  reflexivity.
Qed.

(** With an empty observed series every mean is [nan] and the first
    candidate comes back. *)
Example calibrate_empty_observed :
  calibrate one_region [] [1; 0] = Value 1.
Proof.
  unfold calibrate.
  rewrite (cross_validation_nan one_region [] [1; 0])
    by (intros r _; apply fit_error_empty_data; discriminate).
  apply r_min_floats_nan_head.
Qed.

(** ** The model on small inputs *)

Example step_function_values :
  Θ 5 (Day 6) = 0 /\ Θ 6 (Day 6) = 1 /\ Θ 7 (Day 6) = 1 /\ Θ 7 Inf = 0
  /\ δ 5 (Day 6) = 0 /\ δ 6 (Day 6) = 1 /\ δ 7 (Day 6) = 0.
Proof. repeat split. Qed.

Example contacts_before_and_after :
  k 5 10 (1/2) 3 (Day 6) = 10 /\ k 6 10 (1/2) 3 (Day 6) = 6.
Proof. unfold k. cbn. split; lra. Qed.

Example no_infectious_no_infection (t : Z) (b ka κ s : R) (c : time) :
  P 0 0 t b ka κ s c = 0.
Proof.
  unfold P. replace (k t ka κ s c * (0 + 0)) with 0 by ring.
  rewrite rpow_0_r. ring.
Qed.

Example solve_records_before_advancing (x0 : state) (p : ModelParameters) :
  solve SEAIHRD_markov_step x0 0 1 p = [x0].
Proof. reflexivity. Qed.

Example solve_two_days (x0 : state) :
  solve SEAIHRD_markov_step x0 0 2 lockdown_params
  = [x0; SEAIHRD_markov_step x0 0 (S_ x0)
           (rpow (S_ x0 + R_ x0) 1) lockdown_params].
Proof. reflexivity. Qed.

(** Full confinement of a wholly susceptible population: everybody is
    moved to CH by the step of day 0 and stays there. *)
Example lockdown_run :
  exists s1 s2,
    solve SEAIHRD_markov_step all_susceptible 0 3 lockdown_params
    = [all_susceptible; s1; s2]
    /\ S_ s1 = 0 /\ CH_ s1 = 1 /\ CH_ s2 = 1.
Proof.
  do 2 eexists. split; [reflexivity|].
  cbn. replace (1 + 0) with 1 by lra. rewrite rpow_1_l.
  repeat split; lra.
Qed.

Example MAE_value : MAE [1; 2] [3; 5; 8] = Value (5 / 2).
Proof.
  rewrite MAE_front_window by (try discriminate; cbn; lia).
  unfold MAE_front. cbn. f_equal.
  replace (1 - 3) with (- (2)) by lra. replace (2 - 5) with (- (3)) by lra.
  rewrite !Rabs_Ropp, !Rabs_pos_eq by lra. lra.
Qed.

Example MAE_broadcast_value : MAE [1; 2; 3] [5] = Value 3.
Proof.
  unfold MAE, np_sub. cbn. f_equal.
  replace (1 - 5) with (- (4)) by lra. replace (2 - 5) with (- (3)) by lra.
  replace (3 - 5) with (- (2)) by lra.
  rewrite !Rabs_Ropp, !Rabs_pos_eq by lra. lra.
Qed.

Example MAE_empty_observed : MAE [] [1; 2] = NaN.
Proof. reflexivity. Qed.

Example r_min_first_of_ties :
  r_min [10; 20; 30; 40] [3; 1; 2; 1] = Value 20.
Proof.
  unfold r_min, py_min. cbn [fold_left].
  destruct (Rlt_dec 1 3); [|lra]. destruct (Rlt_dec 2 1); [lra|].
  destruct (Rlt_dec 1 1); [lra|].
  cbn [bind py_index].
  destruct (Req_dec_T 3 1); [lra|]. destruct (Req_dec_T 1 1); [|lra].
  reflexivity.
Qed.

Example aggregation_of_no_region :
  CasesAggregation [] TotalCases = Value (NpScalar 0).
Proof. reflexivity. Qed.

(** * Further properties of the code *)

(** ** The solver *)

Lemma firstn_seq_add (a n m : nat) : firstn n (seq a (n + m)) = seq a n.
Proof.
  revert a. induction n as [|n IH]; intros a; [reflexivity|].
  cbn. now rewrite IH.
Qed.

(** X1: the solver returns exactly [n_steps] rows, and a run over a longer
    horizon starts with the rows of the shorter run. *)
Theorem X1_solve_prefix (f : step_fn) (x0 : state) (t0 : R) (n m : nat)
  (p : ModelParameters) :
  length (solve f x0 t0 n p) = n
  /\ solve f x0 t0 n p = firstn n (solve f x0 t0 (n + m) p).
Proof.
  split; [apply solve_length|].
  rewrite !solve_rows, firstn_map, firstn_seq_add.
  apply map_ext. intros i. apply (solve_loop_core f x0 p n (n + m) i).
Qed.

(** With [κ0 = 0] the step sees neither the confinement day nor the frozen
    scalars. *)
Lemma step_without_containment (x : state) (t : Z) (s c s' c' : R)
  (p : ModelParameters) (d : time) :
  κ0 p = 0 ->
  SEAIHRD_markov_step x t s c p = SEAIHRD_markov_step x t s' c' (with_tc p d).
Proof.
  intros Hκ. unfold SEAIHRD_markov_step, P, k. cbn. rewrite Hκ.
  replace ((1 - 0 * Θ t (tc p)) * k_avg p + 0 * (σ p - 1) * Θ t (tc p))
    with (k_avg p) by ring.
  replace ((1 - 0 * Θ t d) * k_avg p + 0 * (σ p - 1) * Θ t d)
    with (k_avg p) by ring.
  f_equal; ring.
Qed.

Lemma run_without_containment (x0 : state) (n m : nat)
  (p : ModelParameters) (d : time) :
  κ0 p = 0 ->
  xt (solve_loop SEAIHRD_markov_step x0 n p m)
  = xt (solve_loop SEAIHRD_markov_step x0 n (with_tc p d) m).
Proof.
  intros Hκ. induction m as [|m IH]; [reflexivity|].
  rewrite !solve_loop_S. unfold solve_body; cbn [xt].
  rewrite <- IH. now apply step_without_containment.
Qed.

(** X2: the "no action" scenario.  In a valid run (valid configuration,
    non-negative initial state summing to at most 1) with [κ0 = 0] the
    confinement day has no effect at all: the trajectory is the one of a run
    whose [tc] is never reached, and the confined compartment is empty from
    day 1 on.  The validity keeps the power captured on day [tc] a real
    number, which the product with [κ0 = 0] then cancels. *)
Theorem X2_no_action_scenario (p : ModelParameters) (x0 : state) (t0 : R)
  (n : nat) :
  valid_params p -> nonneg x0 -> total x0 <= 1 ->
  κ0 p = 0 ->
  solve SEAIHRD_markov_step x0 t0 n p
  = solve SEAIHRD_markov_step x0 t0 n (with_tc p Inf)
  /\ forall i s, (1 <= i)%nat ->
       nth_error (solve SEAIHRD_markov_step x0 t0 n p) i = Some s ->
       CH_ s = 0.
Proof.
  intros _ _ _ Hκ. split.
  - rewrite !solve_rows. apply map_ext. intros i.
    now apply run_without_containment.
  - intros i s Hi Hs.
    assert (Hn : (i < n)%nat).
    { rewrite <- (solve_length SEAIHRD_markov_step x0 p t0 n).
      apply nth_error_Some. congruence. }
    rewrite solve_nth_error in Hs by assumption. injection Hs as <-.
    destruct i as [|i]; [lia|].
    rewrite solve_loop_S. unfold solve_body; cbn [xt].
    rewrite step_CH, Hκ. ring.
Qed.

Lemma X2_no_action_scenario_witness :
  solve SEAIHRD_markov_step sample_state 0 6 (with_κ0 sample_params 0)
  = solve SEAIHRD_markov_step sample_state 0 6
      (with_tc (with_κ0 sample_params 0) Inf)
  /\ forall i s, (1 <= i)%nat ->
       nth_error (solve SEAIHRD_markov_step sample_state 0 6
                    (with_κ0 sample_params 0)) i = Some s ->
       CH_ s = 0.
Proof.
  apply (X2_no_action_scenario (with_κ0 sample_params 0) sample_state 0 6).
  - exact sample_no_containment_valid.
  - unfold nonneg. cbn. repeat split; lra.
  - unfold total. cbn. lra.
  - reflexivity.
Defined.

(** Up to the confinement day the run does not depend on [κ0]. *)
Lemma same_state_until_tc (x0 : state) (n m : nat) (p : ModelParameters)
  (κ : R) (d : Z) :
  tc p = Day d -> (Z.of_nat m <= d)%Z ->
  xt (solve_loop SEAIHRD_markov_step x0 n p m)
  = xt (solve_loop SEAIHRD_markov_step x0 n (with_κ0 p κ) m).
Proof.
  intros Htc. induction m as [|m IH]; intros Hm; [reflexivity|].
  rewrite !solve_loop_S. unfold solve_body; cbn [xt].
  rewrite <- IH by lia.
  apply step_before.
  - rewrite Htc. apply Θ_before. lia.
  - rewrite Htc, δ_is_day, is_day_before; [reflexivity | lia].
Qed.

(** X5: the containment scenarios of one region coincide on every recorded
    day up to and including the confinement day: they only differ in
    [κ0], which the rows of index [<= tc] do not depend on. *)
Theorem X5_scenarios_agree_until_tc (p : ModelParameters) (x0 : state)
  (t0 : R) (n c i : nat) (κ : R) :
  tc p = Day (Z.of_nat c) -> (i <= c)%nat ->
  nth_error (solve SEAIHRD_markov_step x0 t0 n p) i
  = nth_error (solve SEAIHRD_markov_step x0 t0 n (with_κ0 p κ)) i.
Proof.
  intros Htc Hi. destruct (Nat.lt_ge_cases i n) as [Hlt|Hge].
  - rewrite !solve_nth_error by assumption. f_equal.
    apply (same_state_until_tc x0 n i p κ (Z.of_nat c)); [assumption | lia].
  - rewrite !solve_nth_error_None by assumption. reflexivity.
Qed.

Lemma X5_scenarios_agree_until_tc_witness :
  nth_error (solve SEAIHRD_markov_step sample_state 0 6 sample_params) 2
  = nth_error (solve SEAIHRD_markov_step sample_state 0 6
                 (with_κ0 sample_params (1/5))) 2.
Proof.
  apply (X5_scenarios_agree_until_tc sample_params sample_state 0 6 2 2
           (1/5)); [reflexivity | lia].
Defined.

(** X3: a valid configuration run from a population distribution (non-negative
    fractions summing to 1, nobody confined) records a population
    distribution on every day: all eight fractions are non-negative and sum
    to 1, hence each lies in [0,1]. *)
Theorem X3_distribution_preserved (p : ModelParameters) (x0 : state)
  (t0 : R) (n i : nat) (s : state) :
  valid_params p -> nonneg x0 -> total x0 = 1 -> CH_ x0 = 0 ->
  nth_error (solve SEAIHRD_markov_step x0 t0 n p) i = Some s ->
  nonneg s /\ total s = 1
  /\ S_ s <= 1 /\ E_ s <= 1 /\ CH_ s <= 1 /\ A_ s <= 1
  /\ I_ s <= 1 /\ H_ s <= 1 /\ R_ s <= 1 /\ D_ s <= 1.
Proof.
  intros Hp Hx Htot H0 Hs.
  assert (Hi : (i < n)%nat).
  { rewrite <- (solve_length SEAIHRD_markov_step x0 p t0 n).
    apply nth_error_Some. congruence. }
  rewrite solve_nth_error in Hs by assumption. injection Hs as <-.
  destruct (conservation_invariant x0 n p i H0) as [Hsum _].
  assert (Hfr : fractions x0).
  { destruct Hx as (HS & HE & HCH & HA & HI & HH & HR & HD).
    unfold total in Htot. unfold fractions. repeat split; lra. }
  destruct (run_fractions x0 n p Hp Hfr i)
    as (HS & HE & HA & HI & HH & HR & HD & H7).
  rewrite Htot in Hsum. unfold total in Hsum. unfold nonneg, total.
  repeat split; lra.
Qed.

Lemma X3_distribution_preserved_witness :
  exists s,
    nth_error (solve SEAIHRD_markov_step sample_state 0 6 sample_params) 4
    = Some s
    /\ nonneg s /\ total s = 1
    /\ S_ s <= 1 /\ E_ s <= 1 /\ CH_ s <= 1 /\ A_ s <= 1
    /\ I_ s <= 1 /\ H_ s <= 1 /\ R_ s <= 1 /\ D_ s <= 1.
Proof.
  eexists. split; [apply solve_nth_error; lia|].
  apply (X3_distribution_preserved sample_params sample_state 0 6 4).
  - unfold valid_params, rates_in_unit, outflows_bounded, containment_valid.
    cbn. repeat split; lra.
  - unfold nonneg. cbn. repeat split; lra.
  - unfold total. cbn. lra.
  - reflexivity.
  - apply solve_nth_error; lia.
Defined.

Lemma step_S_le (x : state) (t : Z) (s c : R) (p : ModelParameters) :
  valid_params p -> fractions x ->
  0 <= δ t (tc p) * κ0 p * c <= 1 ->
  S_ (SEAIHRD_markov_step x t s c p) <= S_ x.
Proof.
  intros (Hr & Ho & Hc & Hk) Hx Hf.
  destruct Hr as (Hβ & _). destruct Hc as (Hκ & Hσ).
  destruct Hx as (HS & HE & HA & HI & HH & HR & HD & Hsum).
  assert (HP := P_unit_interval (I_ x) (A_ x) t (β p) (k_avg p) (κ0 p)
                  (σ p) (tc p) Hβ ltac:(lra) Hk Hκ Hσ).
  unfold SEAIHRD_markov_step. cbn [S_].
  set (Pt := P (I_ x) (A_ x) t (β p) (k_avg p) (κ0 p) (σ p) (tc p)) in *.
  set (g := δ t (tc p) * κ0 p * c) in *.
  assert (H1 : S_ x * (1 - Pt) <= S_ x).
  { rewrite <- (Rmult_1_r (S_ x)) at 2. apply Rmult_le_compat_l; lra. }
  assert (H2 : 0 <= S_ x * (1 - Pt)) by (apply Rmult_le_pos; lra).
  assert (H3 : S_ x * (1 - Pt) * (1 - g) <= S_ x * (1 - Pt)).
  { rewrite <- (Rmult_1_r (S_ x * (1 - Pt))) at 2.
    apply Rmult_le_compat_l; lra. }
  lra.
Qed.

(** X4: in a valid run the susceptible fraction never grows: nobody loses
    immunity or leaves confinement. *)
Theorem X4_susceptibles_never_grow (p : ModelParameters) (x0 : state)
  (t0 : R) (n i : nat) (s s' : state) :
  valid_params p -> nonneg x0 -> total x0 <= 1 ->
  nth_error (solve SEAIHRD_markov_step x0 t0 n p) i = Some s ->
  nth_error (solve SEAIHRD_markov_step x0 t0 n p) (i + 1) = Some s' ->
  S_ s' <= S_ s.
Proof.
  intros Hp Hx Htot Hs Hs'.
  assert (Hi : (i + 1 < n)%nat).
  { rewrite <- (solve_length SEAIHRD_markov_step x0 p t0 n).
    apply nth_error_Some. congruence. }
  rewrite solve_nth_error in Hs, Hs' by lia.
  injection Hs as <-. injection Hs' as <-.
  assert (Hfr : fractions x0).
  { destruct Hx as (HS & HE & HCH & HA & HI & HH & HR & HD).
    unfold total in Htot. unfold fractions. repeat split; lra. }
  assert (Hm := run_fractions x0 n p Hp Hfr i).
  assert (Hf := confinement_factor x0 n p Hp i Hm).
  rewrite Nat.add_1_r, solve_loop_S.
  apply (step_S_le _ _ _ _ _ Hp Hm Hf).
Qed.

Lemma X4_susceptibles_never_grow_witness :
  exists s s',
    nth_error (solve SEAIHRD_markov_step sample_state 0 6 sample_params) 2
    = Some s
    /\ nth_error (solve SEAIHRD_markov_step sample_state 0 6 sample_params)
         (2 + 1) = Some s'
    /\ S_ s' <= S_ s.
Proof.
  do 2 eexists. split; [apply solve_nth_error; lia|].
  split; [apply solve_nth_error; lia|].
  apply (X4_susceptibles_never_grow sample_params sample_state 0 6 2).
  - unfold valid_params, rates_in_unit, outflows_bounded, containment_valid.
    cbn. repeat split; lra.
  - unfold nonneg. cbn. repeat split; lra.
  - unfold total. cbn. lra.
  - apply solve_nth_error; lia.
  - apply solve_nth_error; lia.
Defined.

(** A disease-free state is a fixed point of the step on every day that is
    not the confinement day or later. *)
Lemma step_disease_free (x : state) (t : Z) (s c : R) (p : ModelParameters) :
  Θ t (tc p) = 0 -> δ t (tc p) = 0 -> disease_free x -> CH_ x = 0 ->
  SEAIHRD_markov_step x t s c p = x.
Proof.
  intros HΘ Hδ (HE & HA & HI & HH) HCH.
  destruct x as [xS xE xCH xA xI xH xR xD]. cbn in *. subst.
  unfold SEAIHRD_markov_step, P. cbn. rewrite HΘ, Hδ.
  replace (k t (k_avg p) (κ0 p) (σ p) (tc p) * (0 + 0)) with 0 by ring.
  rewrite rpow_0_r. f_equal; ring.
Qed.

(** X6: without any exposed, asymptomatic, infected or hospitalized
    individual and without confinement, nothing happens: every recorded
    state is the initial state. *)
Theorem X6_disease_free_run (p : ModelParameters) (x0 : state) (t0 : R)
  (n i : nat) (s : state) :
  never n p -> disease_free x0 -> CH_ x0 = 0 ->
  nth_error (solve SEAIHRD_markov_step x0 t0 n p) i = Some s ->
  s = x0.
Proof.
  intros Hnever Hfree H0 Hs.
  assert (Hi : (i < n)%nat).
  { rewrite <- (solve_length SEAIHRD_markov_step x0 p t0 n).
    apply nth_error_Some. congruence. }
  rewrite solve_nth_error in Hs by assumption. injection Hs as <-.
  clear t0. induction i as [|i IH]; [reflexivity|].
  rewrite solve_loop_S. unfold solve_body; cbn [xt].
  rewrite IH by lia.
  destruct (never_before n p i Hnever) as (_ & HΘ & Hδ); [lia|].
  now apply step_disease_free.
Qed.

Lemma X6_disease_free_run_witness :
  exists s,
    nth_error (solve SEAIHRD_markov_step (mkState (3/4) 0 0 0 0 0 (1/8) (1/8))
                 0 5 (with_tc sample_params Inf)) 4 = Some s
    /\ s = mkState (3/4) 0 0 0 0 0 (1/8) (1/8).
Proof.
  eexists. split; [apply solve_nth_error; lia|].
  apply (X6_disease_free_run (with_tc sample_params Inf)
           (mkState (3/4) 0 0 0 0 0 (1/8) (1/8)) 0 5 4).
  - left. reflexivity.
  - repeat split.
  - reflexivity.
  - apply solve_nth_error; lia.
Defined.

(** X7: in a valid run with confinement on day [c], the confined fraction
    recorded from day [c+1] on is at most [κ0] times the susceptible
    fraction of day [c]. *)
Theorem X7_confined_at_most_kappa_S (p : ModelParameters) (x0 : state)
  (t0 : R) (n c i : nat) (s_c s_i : state) :
  valid_params p -> nonneg x0 -> total x0 <= 1 ->
  tc p = Day (Z.of_nat c) -> (c + 1 <= i)%nat ->
  nth_error (solve SEAIHRD_markov_step x0 t0 n p) c = Some s_c ->
  nth_error (solve SEAIHRD_markov_step x0 t0 n p) i = Some s_i ->
  0 <= CH_ s_i <= κ0 p * S_ s_c.
Proof.
  intros Hp Hx Htot Htc Hci Hsc Hsi.
  assert (Hi : (i < n)%nat).
  { rewrite <- (solve_length SEAIHRD_markov_step x0 p t0 n).
    apply nth_error_Some. congruence. }
  rewrite solve_nth_error in Hsc, Hsi by lia.
  injection Hsc as <-. injection Hsi as <-.
  rewrite (CH_captured x0 n p c i Htc) by lia.
  assert (Hfr : fractions x0).
  { destruct Hx as (HS & HE & HCH & HA & HI & HH & HR & HD).
    unfold total in Htot. unfold fractions. repeat split; lra. }
  destruct (run_fractions x0 n p Hp Hfr c)
    as (HS & HE & HA & HI & HH & HR & HD & H7).
  destruct Hp as (_ & _ & (Hκ & Hσ) & _).
  set (y := xt (solve_loop SEAIHRD_markov_step x0 n p c)) in *.
  assert (Hpw : 0 <= rpow (S_ y + R_ y) (σ p) <= 1)
    by (apply rpow_unit_interval; lra).
  assert (HκS : 0 <= S_ y * κ0 p) by (apply Rmult_le_pos; lra).
  split.
  - apply Rmult_le_pos; lra.
  - replace (κ0 p * S_ y) with (S_ y * κ0 p * 1) by ring.
    apply Rmult_le_compat_l; lra.
Qed.

Lemma X7_confined_at_most_kappa_S_witness :
  exists s_c s_i,
    nth_error (solve SEAIHRD_markov_step sample_state 0 6 sample_params) 2
    = Some s_c
    /\ nth_error (solve SEAIHRD_markov_step sample_state 0 6 sample_params) 5
       = Some s_i
    /\ 0 <= CH_ s_i <= κ0 sample_params * S_ s_c.
Proof.
  do 2 eexists. split; [apply solve_nth_error; lia|].
  split; [apply solve_nth_error; lia|].
  apply (X7_confined_at_most_kappa_S sample_params sample_state 0 6 2 5).
  - unfold valid_params, rates_in_unit, outflows_bounded, containment_valid.
    cbn. repeat split; lra.
  - unfold nonneg. cbn. repeat split; lra.
  - unfold total. cbn. lra.
  - reflexivity.
  - lia.
  - apply solve_nth_error; lia.
  - apply solve_nth_error; lia.
Defined.

(** ** Contacts and infection probability *)

Lemma exp_le_compat (a b : R) : a <= b -> exp a <= exp b.
Proof.
  intros [Hlt | ->]; [left; now apply exp_increasing | lra].
Qed.

Lemma ln_nonpos (x : R) : 0 < x <= 1 -> ln x <= 0.
Proof.
  intros [H0 [H1 | ->]]; [|rewrite ln_1; lra].
  rewrite <- ln_1. left. now apply ln_increasing.
Qed.

(** A power of a base in [0,1] does not grow with a non-negative exponent. *)
Lemma rpow_antitone (x y y' : R) :
  0 <= x <= 1 -> 0 <= y <= y' -> rpow x y' <= rpow x y.
Proof.
  intros [Hx0 Hx1] [Hy Hyy]. unfold rpow.
  destruct (Req_dec_T x 0) as [E0|N0].
  - destruct (Req_dec_T y' 0), (Req_dec_T y 0); lra.
  - unfold Rpower. apply exp_le_compat.
    assert (Hln : ln x <= 0) by (apply ln_nonpos; lra).
    nra.
Qed.

(** X8: from the confinement day on the number of contacts is the mix
    [(1-κ0)·k_avg + κ0·(σ-1)], which lies between the average number of
    contacts and [σ-1]; before that day it is [k_avg].  So confinement does
    not raise the number of contacts when [σ - 1 <= k_avg], and does not
    lower it when [k_avg <= σ - 1]. *)
Theorem X8_contacts_between (t : Z) (ka κ s : R) (c : time) :
  0 <= κ <= 1 ->
  Rmin ka (s - 1) <= k t ka κ s c <= Rmax ka (s - 1)
  /\ (Θ t c = 0 -> k t ka κ s c = ka)
  /\ (s - 1 <= ka -> k t ka κ s c <= ka)
  /\ (ka <= s - 1 -> ka <= k t ka κ s c).
Proof.
  intros Hκ.
  assert (Hb : Rmin ka (s - 1) <= k t ka κ s c <= Rmax ka (s - 1)).
  { unfold k, Rmin, Rmax.
    destruct (Θ_cases t c) as [-> | ->]; destruct (Rle_dec ka (s - 1)); nra. }
  split; [exact Hb|]. split; [apply k_before|].
  unfold Rmin, Rmax in Hb. destruct (Rle_dec ka (s - 1)); split; intros; lra.
Qed.

Lemma X8_contacts_between_witness :
  Rmin 10 (3 - 1) <= k 7 10 (1/2) 3 (Day 6) <= Rmax 10 (3 - 1)
  /\ (Θ 7 (Day 6) = 0 -> k 7 10 (1/2) 3 (Day 6) = 10)
  /\ (3 - 1 <= 10 -> k 7 10 (1/2) 3 (Day 6) <= 10)
  /\ (10 <= 3 - 1 -> 10 <= k 7 10 (1/2) 3 (Day 6)).
Proof.
  apply (X8_contacts_between 7 10 (1/2) 3 (Day 6)). lra.
Defined.

(** X9: the infection probability does not decrease when the infectious
    fraction [I + A] grows. *)
Theorem X9_infection_probability_monotone
  (I A I' A' : R) (t : Z) (b ka κ s : R) (c : time) :
  0 <= b <= 1 -> 0 <= ka -> 0 <= κ <= 1 -> 1 <= s ->
  0 <= I + A -> I + A <= I' + A' ->
  P I A t b ka κ s c <= P I' A' t b ka κ s c.
Proof.
  intros Hb Hka Hκ Hs H0 Hle. unfold P.
  assert (Hk := k_nonneg t ka κ s c Hka Hκ Hs).
  assert (Hpow : rpow (1 - b) (k t ka κ s c * (I' + A'))
                 <= rpow (1 - b) (k t ka κ s c * (I + A))).
  { apply rpow_antitone; [lra|]. split; [nra|].
    apply Rmult_le_compat_l; assumption. }
  lra.
Qed.

Lemma X9_infection_probability_monotone_witness :
  P (1/8) (1/8) 7 (1/2) 10 (1/2) 3 (Day 6)
  <= P (1/4) (1/4) 7 (1/2) 10 (1/2) 3 (Day 6).
Proof.
  apply (X9_infection_probability_monotone (1/8) (1/8) (1/4) (1/4) 7 (1/2)
           10 (1/2) 3 (Day 6)); lra.
Defined.

(** X10: when a household has no more members to meet than the average
    number of contacts ([σ - 1 <= k_avg]), containment does not raise the
    infection probability: with any [κ0] in [0,1] it is at most the
    probability of the scenario without containment. *)
Theorem X10_containment_lowers_infection
  (I A : R) (t : Z) (b ka κ s : R) (c : time) :
  0 <= b <= 1 -> 0 <= κ <= 1 -> 1 <= s -> s - 1 <= ka -> 0 <= I + A ->
  P I A t b ka κ s c <= P I A t b ka 0 s c.
Proof.
  intros Hb Hκ Hs Hska HIA. unfold P.
  assert (Hka : 0 <= ka) by lra.
  assert (Hk := k_nonneg t ka κ s c Hka Hκ Hs).
  assert (Hk0 : k t ka 0 s c = ka) by (unfold k; ring).
  assert (Hle : k t ka κ s c <= ka).
  { unfold k. destruct (Θ_cases t c) as [-> | ->]; nra. }
  rewrite Hk0.
  assert (Hpow : rpow (1 - b) (ka * (I + A))
                 <= rpow (1 - b) (k t ka κ s c * (I + A))).
  { apply rpow_antitone; [lra|]. split; [nra|].
    apply Rmult_le_compat_r; assumption. }
  lra.
Qed.

Lemma X10_containment_lowers_infection_witness :
  P (1/4) (1/4) 7 (1/2) 10 (1/2) 3 (Day 6)
  <= P (1/4) (1/4) 7 (1/2) 10 0 3 (Day 6).
Proof.
  apply (X10_containment_lowers_infection (1/4) (1/4) 7 (1/2) 10 (1/2) 3
           (Day 6)); lra.
Defined.

(** ** Mean absolute error: values and failures *)

Lemma abs_diff_sum (x y : list R) :
  length x = length y ->
  0 <= rsum (map (fun ab => Rabs (fst ab - snd ab)) (combine x y))
  /\ (rsum (map (fun ab => Rabs (fst ab - snd ab)) (combine x y)) = 0
      <-> x = y).
Proof.
  revert y. induction x as [|a x IH]; intros [|b y] Hlen; try discriminate.
  - cbn. split; [lra | tauto].
  - cbn in Hlen. injection Hlen as Hlen.
    destruct (IH y Hlen) as [Hpos Hiff].
    cbn [combine map fst snd]. unfold rsum in *. cbn [fold_right].
    assert (Habs := Rabs_pos (a - b)).
    split; [lra|]. split.
    + intros Hsum.
      assert (Hz : Rabs (a - b) = 0) by lra.
      assert (Hr : fold_right Rplus 0
                     (map (fun ab => Rabs (fst ab - snd ab)) (combine x y))
                   = 0) by lra.
      apply Hiff in Hr. subst y.
      assert (Hab : a - b = 0).
      { destruct (Req_dec_T (a - b) 0) as [E|N]; [exact E|].
        apply Rabs_no_R0 in N. contradiction. }
      f_equal. lra.
    + intros Heq. injection Heq as -> ->.
      replace (b - b) with 0 by ring. rewrite Rabs_R0.
      assert (Hr : fold_right Rplus 0
                     (map (fun ab => Rabs (fst ab - snd ab)) (combine y y))
                   = 0) by (now apply Hiff).
      lra.
Qed.

(** X11: against a projection at least as long as a non-empty observed
    series, the MAE is a non-negative number, and it is 0 exactly when the
    projection starts with the observed series. *)
Theorem X11_MAE_zero_iff_exact_fit (x y : list R) :
  x <> [] -> (length x <= length y)%nat ->
  exists m, MAE x y = Value m /\ 0 <= m
            /\ (m = 0 <-> firstn (length x) y = x).
Proof.
  intros Hx Hle. exists (MAE_front x y).
  split; [now apply MAE_front_window|].
  unfold MAE_front. rewrite Nat.min_l by assumption. rewrite firstn_all.
  assert (Hlen : length x = length (firstn (length x) y))
    by (rewrite length_firstn; lia).
  destruct (abs_diff_sum x (firstn (length x) y) Hlen) as [Hpos Hiff].
  assert (Hn : 0 < INR (length x)).
  { apply lt_0_INR. destruct x; [contradiction | cbn; lia]. }
  set (sm := rsum (map (fun ab => Rabs (fst ab - snd ab))
                     (combine x (firstn (length x) y)))) in *.
  assert (Hinv : 0 < / INR (length x)) by now apply Rinv_0_lt_compat.
  split; [unfold Rdiv; apply Rmult_le_pos; lra|].
  split.
  - intros Hz. symmetry. apply Hiff.
    unfold Rdiv in Hz. apply Rmult_integral in Hz. destruct Hz; lra.
  - intros Heq. symmetry in Heq. apply Hiff in Heq. rewrite Heq.
    unfold Rdiv. ring.
Qed.

Lemma X11_MAE_zero_iff_exact_fit_witness :
  exists m, MAE [1; 2] [1; 2; 7] = Value m /\ 0 <= m
            /\ (m = 0 <-> firstn (length [1; 2]) [1; 2; 7] = [1; 2]).
Proof.
  apply (X11_MAE_zero_iff_exact_fit [1; 2] [1; 2; 7]);
    [discriminate | cbn; lia].
Defined.

(** X12: what the projection holds beyond the length of the observed series
    has no influence on the MAE. *)
Theorem X12_MAE_ignores_projection_tail (x y z : list R) :
  (length x <= length y)%nat -> MAE x (y ++ z) = MAE x y.
Proof.
  intros Hle. unfold MAE. rewrite firstn_app.
  replace (length x - length y)%nat with 0%nat by lia.
  cbn [firstn]. now rewrite app_nil_r.
Qed.

Lemma X12_MAE_ignores_projection_tail_witness :
  MAE [1; 2] ([3; 5] ++ [8; 13]) = MAE [1; 2] [3; 5].
Proof.
  apply (X12_MAE_ignores_projection_tail [1; 2] [3; 5] [8; 13]). cbn. lia.
Defined.

Ltac mae_cases :=
  repeat split; intros;
  repeat match goal with
    | H : exists _, _ |- _ => destruct H
    | H : _ /\ _ |- _ => destruct H
    | H : _ \/ _ |- _ => destruct H
    end;
  subst; cbn [length] in *;
  try discriminate; try contradiction; try lia;
  try (eexists; reflexivity); try tauto.

(** X13: when the MAE fails.  It raises (a shape error of the subtraction)
    exactly when the projection is shorter than the observed series and
    neither has length 1; it is [nan] exactly when the observed series is
    empty, or has one element while the projection is empty; in every other
    case it is a number. *)
Theorem X13_MAE_failures (x y : list R) :
  (MAE x y = Raises
   <-> (length y < length x)%nat /\ length y <> 1%nat /\ length x <> 1%nat)
  /\ (MAE x y = NaN <-> x = [] \/ (length x = 1%nat /\ y = []))
  /\ ((exists m, MAE x y = Value m)
      <-> x <> [] /\ ((length x <= length y)%nat \/ length y = 1%nat)).
Proof.
  destruct (Nat.le_gt_cases (length x) (length y)) as [Hle|Hgt].
  - destruct x as [|a x'].
    + assert (H : MAE [] y = NaN) by reflexivity.
      rewrite H. mae_cases.
    + assert (H : MAE (a :: x') y = Value (MAE_front (a :: x') y))
        by (apply MAE_front_window; [discriminate | assumption]).
      rewrite H. mae_cases.
  - unfold MAE, np_sub. rewrite firstn_all2 by lia.
    destruct (Nat.eqb_spec (length x) (length y)) as [He|_]; [lia|].
    destruct (Nat.eqb_spec (length y) 1) as [Hy1|Hy1].
    + destruct x as [|a x']; [cbn in Hgt; lia|].
      cbn [bind map np_mean]. mae_cases.
    + destruct (Nat.eqb_spec (length x) 1) as [Hx1|Hx1].
      * assert (Hy : y = []) by (destruct y; [reflexivity | cbn in *; lia]).
        subst y. cbn [bind map np_mean]. mae_cases.
      * cbn [bind]. mae_cases.
Qed.

(** X14: a projection of a single day is compared with every observation
    (numpy broadcasts it), not with the first one only. *)
Theorem X14_MAE_single_day_projection (x : list R) (c : R) :
  x <> [] ->
  MAE x [c] = Value (rsum (map (fun a => Rabs (a - c)) x) / INR (length x)).
Proof.
  intros Hx. destruct x as [|a x']; [contradiction|].
  destruct x' as [|b x''].
  - rewrite MAE_front_window by (try discriminate; cbn; lia).
    reflexivity.
  - unfold MAE, np_sub. cbn [length firstn Nat.eqb hd bind].
    rewrite map_map. set (l := a :: b :: x'').
    assert (Hl : length (map (fun u => Rabs (u - c)) l) = length l)
      by apply length_map.
    unfold np_mean. cbn [map l]. cbn [map l] in Hl. rewrite Hl.
    reflexivity.
Qed.

Lemma X14_MAE_single_day_projection_witness :
  MAE [1; 2; 3] [5]
  = Value (rsum (map (fun a => Rabs (a - 5)) [1; 2; 3])
           / INR (length [1; 2; 3])).
Proof.
  apply (X14_MAE_single_day_projection [1; 2; 3] 5). discriminate.
Defined.

(** ** Aggregation of other columns, order of the regions, ragged input *)

(** Any derived quantity that yields one value per day aggregates day by
    day. *)
Lemma aggregation_by_day (f : list state -> list R)
  (sol_per_state : list (list state)) (n : nat) :
  (forall sol, length (f sol) = length sol) ->
  sol_per_state <> [] ->
  Forall (fun sol => length sol = n) sol_per_state ->
  exists v,
    CasesAggregation sol_per_state f = Value (NpArray v)
    /\ length v = n
    /\ forall d, nth d v 0
                 = rsum (map (fun sol => nth d (f sol) 0) sol_per_state).
Proof.
  intros Hf Hne Hall. unfold CasesAggregation.
  destruct (np_sum_axis0_rows (map f sol_per_state) n)
    as (v & Hv & Hlen & Hnth).
  - destruct sol_per_state; [contradiction | discriminate].
  - apply Forall_map. eapply Forall_impl; [|exact Hall].
    intros sol Hsol. cbn. now rewrite Hf.
  - exists v. split; [exact Hv|]. split; [exact Hlen|].
    intros d. now rewrite Hnth, map_map.
Qed.

Lemma column_nth (g : state -> R) (sol : list state) (d : nat) :
  g zero_state = 0 -> nth d (map g sol) 0 = g (nth d sol zero_state).
Proof. intros Hz. rewrite <- Hz at 1. apply map_nth. Qed.

(** X15: the columns written to the scenario file.  For trajectories of a
    common horizon, the national recovered, deceased and hospitalized series
    are, day by day, the sums over the regions of R, D and H. *)
Theorem X15_csv_columns_additive (sol_per_state : list (list state))
  (n d : nat) :
  sol_per_state <> [] ->
  Forall (fun sol => length sol = n) sol_per_state ->
  exists rec dec hos,
    CasesAggregation sol_per_state Recovered = Value (NpArray rec)
    /\ CasesAggregation sol_per_state Deceased = Value (NpArray dec)
    /\ CasesAggregation sol_per_state Hospitalized = Value (NpArray hos)
    /\ length rec = n /\ length dec = n /\ length hos = n
    /\ nth d rec 0
       = rsum (map (fun sol => R_ (nth d sol zero_state)) sol_per_state)
    /\ nth d dec 0
       = rsum (map (fun sol => D_ (nth d sol zero_state)) sol_per_state)
    /\ nth d hos 0
       = rsum (map (fun sol => H_ (nth d sol zero_state)) sol_per_state).
Proof.
  intros Hne Hall.
  destruct (aggregation_by_day Recovered sol_per_state n)
    as (rec & Hrec & Lrec & Nrec); try assumption.
  { intros sol. apply length_map. }
  destruct (aggregation_by_day Deceased sol_per_state n)
    as (dec & Hdec & Ldec & Ndec); try assumption.
  { intros sol. apply length_map. }
  destruct (aggregation_by_day Hospitalized sol_per_state n)
    as (hos & Hhos & Lhos & Nhos); try assumption.
  { intros sol. apply length_map. }
  exists rec, dec, hos. repeat (split; [assumption|]).
  rewrite Nrec, Ndec, Nhos. unfold Recovered, Deceased, Hospitalized.
  repeat split; f_equal; apply map_ext; intros sol;
    now apply column_nth.
Qed.

Lemma X15_csv_columns_additive_witness :
  exists rec dec hos,
    CasesAggregation [[sample_state; half_infected]; [half_infected; oversized]]
      Recovered = Value (NpArray rec)
    /\ CasesAggregation
         [[sample_state; half_infected]; [half_infected; oversized]]
         Deceased = Value (NpArray dec)
    /\ CasesAggregation
         [[sample_state; half_infected]; [half_infected; oversized]]
         Hospitalized = Value (NpArray hos)
    /\ length rec = 2%nat /\ length dec = 2%nat /\ length hos = 2%nat
    /\ nth 1 rec 0
       = rsum (map (fun sol => R_ (nth 1 sol zero_state))
                 [[sample_state; half_infected]; [half_infected; oversized]])
    /\ nth 1 dec 0
       = rsum (map (fun sol => D_ (nth 1 sol zero_state))
                 [[sample_state; half_infected]; [half_infected; oversized]])
    /\ nth 1 hos 0
       = rsum (map (fun sol => H_ (nth 1 sol zero_state))
                 [[sample_state; half_infected]; [half_infected; oversized]]).
Proof.
  apply (X15_csv_columns_additive
           [[sample_state; half_infected]; [half_infected; oversized]] 2 1).
  - discriminate.
  - repeat constructor.
Defined.

Lemma rsum_app (a b : list R) : rsum (a ++ b) = rsum a + rsum b.
Proof.
  unfold rsum. induction a as [|u a IH]; cbn; [lra | rewrite IH; lra].
Qed.

Lemma rsum_permutation (a b : list R) :
  Permutation a b -> rsum a = rsum b.
Proof.
  unfold rsum. induction 1; cbn; lra.
Qed.

(** X16: the national series does not depend on the order in which the
    regions are listed. *)
Theorem X16_aggregation_order_independent
  (f : list state -> list R) (sols sols' : list (list state)) (n : nat) :
  (forall sol, length (f sol) = length sol) ->
  sols <> [] -> Forall (fun sol => length sol = n) sols ->
  Permutation sols sols' ->
  exists v, CasesAggregation sols f = Value (NpArray v)
            /\ CasesAggregation sols' f = Value (NpArray v).
Proof.
  intros Hf Hne Hall Hperm.
  assert (Hne' : sols' <> []).
  { intros ->. apply Permutation_sym, Permutation_nil in Hperm.
    contradiction. }
  assert (Hall' : Forall (fun sol => length sol = n) sols')
    by (eapply Permutation_Forall; eassumption).
  destruct (aggregation_by_day f sols n Hf Hne Hall) as (v & Hv & Lv & Nv).
  destruct (aggregation_by_day f sols' n Hf Hne' Hall')
    as (v' & Hv' & Lv' & Nv').
  exists v. split; [exact Hv|]. rewrite Hv'. do 2 f_equal.
  apply (nth_ext v' v 0 0); [lia|].
  intros d _. rewrite Nv, Nv'. symmetry.
  apply rsum_permutation. now apply Permutation_map.
Qed.

Lemma X16_aggregation_order_independent_witness :
  exists v,
    CasesAggregation [[sample_state; half_infected]; [half_infected; oversized]]
      TotalCases = Value (NpArray v)
    /\ CasesAggregation
         [[half_infected; oversized]; [sample_state; half_infected]]
         TotalCases = Value (NpArray v).
Proof.
  apply (X16_aggregation_order_independent TotalCases
           [[sample_state; half_infected]; [half_infected; oversized]]
           [[half_infected; oversized]; [sample_state; half_infected]] 2).
  - apply TotalCases_length.
  - discriminate.
  - repeat constructor.
  - apply perm_swap.
Defined.

(** X17: what cannot be aggregated.  Without any region the sum is the
    scalar [0.0], not a series; and as soon as one trajectory has another
    number of days than the first, the aggregation raises; otherwise it
    returns a series. *)
Theorem X17_aggregation_edge_cases (sol : list state)
  (sols : list (list state)) :
  CasesAggregation [] TotalCases = Value (NpScalar 0)
  /\ (CasesAggregation (sol :: sols) TotalCases = Raises
      <-> exists sol', In sol' sols /\ length sol' <> length sol)
  /\ ((exists v, CasesAggregation (sol :: sols) TotalCases
                 = Value (NpArray v))
      <-> Forall (fun sol' => length sol' = length sol) sols).
Proof.
  split; [reflexivity|].
  unfold CasesAggregation. cbn [map np_sum_axis0].
  destruct (forallb _ (map TotalCases sols)) eqn:Hall.
  - rewrite forallb_forall in Hall.
    assert (Hsame : Forall (fun sol' => length sol' = length sol) sols).
    { apply Forall_forall. intros sol' Hin.
      specialize (Hall (TotalCases sol') (in_map _ _ _ Hin)).
      apply Nat.eqb_eq in Hall. now rewrite !TotalCases_length in Hall. }
    split; split.
    + discriminate.
    + intros (sol' & Hin & Hne). rewrite Forall_forall in Hsame.
      now specialize (Hsame sol' Hin).
    + intros _. exact Hsame.
    + intros _. eexists. reflexivity.
  - assert (Hex : exists sol', In sol' sols /\ length sol' <> length sol).
    { destruct (forallb_forall
                  (fun r' => (length r' =? length (TotalCases sol))%nat)
                  (map TotalCases sols)) as [_ Hback].
      destruct (Exists_dec (fun sol' => length sol' <> length sol) sols)
        as [Hyes|Hno].
      - intros sol'. destruct (Nat.eq_dec (length sol') (length sol));
          [right; tauto | left; assumption].
      - apply Exists_exists in Hyes. exact Hyes.
      - exfalso. rewrite Hback in Hall; [discriminate|].
        intros r Hr. apply in_map_iff in Hr. destruct Hr as (sol' & <- & Hin).
        rewrite !TotalCases_length. apply Nat.eqb_eq.
        destruct (Nat.eq_dec (length sol') (length sol)) as [E|N];
          [exact E|].
        exfalso. apply Hno. apply Exists_exists. now exists sol'. }
    split; split.
    + intros _. exact Hex.
    + reflexivity.
    + intros [v Hv]. discriminate.
    + intros Hsame. destruct Hex as (sol' & Hin & Hne).
      rewrite Forall_forall in Hsame. now specialize (Hsame sol' Hin).
Qed.

(** X18: the national total cases are, day by day, the national active cases
    plus the national recovered plus the national deceased. *)
Theorem X18_national_total_decomposes (sol_per_state : list (list state))
  (n d : nat) :
  sol_per_state <> [] ->
  Forall (fun sol => length sol = n) sol_per_state ->
  exists tot act rec dec,
    CasesAggregation sol_per_state TotalCases = Value (NpArray tot)
    /\ CasesAggregation sol_per_state ActiveCases = Value (NpArray act)
    /\ CasesAggregation sol_per_state Recovered = Value (NpArray rec)
    /\ CasesAggregation sol_per_state Deceased = Value (NpArray dec)
    /\ nth d tot 0 = nth d act 0 + nth d rec 0 + nth d dec 0.
Proof.
  intros Hne Hall.
  assert (Hact : forall sol, length (ActiveCases sol) = length sol).
  { intros sol. apply (proj1 (partial_sums_length sol)). }
  destruct (aggregation_by_day TotalCases sol_per_state n TotalCases_length
              Hne Hall) as (tot & Htot & _ & Ntot).
  destruct (aggregation_by_day ActiveCases sol_per_state n Hact Hne Hall)
    as (act & Hac & _ & Nact).
  destruct (aggregation_by_day Recovered sol_per_state n
              (fun sol => length_map R_ sol) Hne Hall)
    as (rec & Hrec & _ & Nrec).
  destruct (aggregation_by_day Deceased sol_per_state n
              (fun sol => length_map D_ sol) Hne Hall)
    as (dec & Hdec & _ & Ndec).
  exists tot, act, rec, dec. repeat (split; [assumption|]).
  rewrite Ntot, Nact, Nrec, Ndec. clear.
  induction sol_per_state as [|sol rest IH]; cbn [map].
  - unfold rsum. cbn. lra.
  - unfold rsum in *. cbn [fold_right]. rewrite IH.
    assert (Hsol : nth d (TotalCases sol) 0
                   = nth d (ActiveCases sol) 0 + nth d (Recovered sol) 0
                     + nth d (Deceased sol) 0).
    { destruct (partial_sums_length sol) as [H1 H2].
      unfold TotalCases, ActiveCases.
      rewrite vadd_nth by (unfold Deceased; now rewrite H2, length_map).
      rewrite vadd_nth by (unfold Recovered; now rewrite H1, length_map).
      reflexivity. }
    rewrite Hsol. lra.
Qed.

Lemma X18_national_total_decomposes_witness :
  exists tot act rec dec,
    CasesAggregation [[sample_state; half_infected]; [half_infected; oversized]]
      TotalCases = Value (NpArray tot)
    /\ CasesAggregation
         [[sample_state; half_infected]; [half_infected; oversized]]
         ActiveCases = Value (NpArray act)
    /\ CasesAggregation
         [[sample_state; half_infected]; [half_infected; oversized]]
         Recovered = Value (NpArray rec)
    /\ CasesAggregation
         [[sample_state; half_infected]; [half_infected; oversized]]
         Deceased = Value (NpArray dec)
    /\ nth 1 tot 0 = nth 1 act 0 + nth 1 rec 0 + nth 1 dec 0.
Proof.
  apply (X18_national_total_decomposes
           [[sample_state; half_infected]; [half_infected; oversized]] 2 1).
  - discriminate.
  - repeat constructor.
Defined.

(** ** Per-region projections *)

Lemma initial_conditions_total (reg : region) (r : R) :
  total (initial_conditions reg r) = 1
  /\ CH_ (initial_conditions reg r) = 0
  /\ H_ (initial_conditions reg r) = 0.
Proof. unfold total, initial_conditions. cbn. repeat split; ring. Qed.

Lemma total_scale_state (N : R) (x : state) :
  total (scale_state N x) = total x * N.
Proof. unfold total, scale_state. cbn. ring. Qed.

Lemma projections_nth (g : globals) (r κ : R) (j : nat) (reg : region) :
  nth_error (states_mex g) j = Some reg ->
  nth_error (projections g r κ) j
  = Some (scale (solve SEAIHRD_markov_step (initial_conditions reg r) 0
                   (n_days g) (with_κ0 (constants g) κ))
                (population reg)).
Proof.
  intros Hj. unfold projections. rewrite nth_error_map, Hj. reflexivity.
Qed.

Lemma nth_map_in (h : state -> state) (l : list state) (d d' : state)
  (i : nat) :
  (i < length l)%nat -> nth i (map h l) d = h (nth i l d').
Proof.
  intros Hi. rewrite (nth_indep (map h l) d (h d'))
    by (now rewrite length_map).
  apply map_nth.
Qed.

Lemma solve_first_row (f : step_fn) (x0 : state) (t0 : R) (n : nat)
  (p : ModelParameters) :
  (1 <= n)%nat -> nth 0 (solve f x0 t0 n p) zero_state = x0.
Proof.
  intros Hn. apply nth_error_nth. now rewrite solve_nth_error by lia.
Qed.

(** X20: on day 0 the national total cases are the confirmed cases of the
    data, whatever the latent proportion [r] and the scenario: the fit
    error of day 0 is the same for every candidate. *)
Theorem X20_day_zero_is_confirmed (g : globals) (r κ : R) :
  states_mex g <> [] -> (1 <= n_days g)%nat ->
  (forall reg, In reg (states_mex g) -> population reg <> 0) ->
  exists v,
    solve_national g r κ = Value (NpArray v)
    /\ nth_error v 0 = Some (rsum (map confirmed (states_mex g))).
Proof.
  intros Hne Hn Hpop. unfold solve_national.
  destruct (aggregation_by_day TotalCases (projections g r κ) (n_days g))
    as (v & Hv & Hlen & Hnth).
  - apply TotalCases_length.
  - unfold projections. destruct (states_mex g); [contradiction|discriminate].
  - apply projections_length.
  - exists v. split; [exact Hv|].
    rewrite (nth_error_nth' v 0) by lia. f_equal.
    rewrite Hnth. unfold projections. rewrite map_map.
    f_equal. apply map_ext_in. intros reg Hin.
    rewrite TotalCases_nth. unfold scale.
    rewrite (nth_map_in _ _ zero_state zero_state)
      by (rewrite solve_length; lia).
    rewrite solve_first_row by assumption.
    unfold total_cases, scale_state, initial_conditions. cbn.
    specialize (Hpop reg Hin). field. exact Hpop.
Qed.

Lemma X20_day_zero_is_confirmed_witness :
  exists v,
    solve_national (mkGlobals sample_params 5
                      [mkRegion 1000 10 1 2; mkRegion 500 4 0 1])
      (1/2) (1/5) = Value (NpArray v)
    /\ nth_error v 0
       = Some (rsum (map confirmed
                       [mkRegion 1000 10 1 2; mkRegion 500 4 0 1])).
Proof.
  apply (X20_day_zero_is_confirmed
           (mkGlobals sample_params 5
              [mkRegion 1000 10 1 2; mkRegion 500 4 0 1])
           (1/2) (1/5)).
  - discriminate.
  - cbn. lia.
  - intros reg [<- | [<- | []]]; cbn; apply Rgt_not_eq; lra.
Defined.

Lemma run_distribution (p : ModelParameters) (x0 : state) (n i : nat) :
  valid_params p -> nonneg x0 -> total x0 = 1 -> CH_ x0 = 0 ->
  nonneg (xt (solve_loop SEAIHRD_markov_step x0 n p i))
  /\ total (xt (solve_loop SEAIHRD_markov_step x0 n p i)) = 1.
Proof.
  intros Hp Hx Htot H0.
  destruct (conservation_invariant x0 n p i H0) as [Hsum _].
  assert (Hfr : fractions x0).
  { destruct Hx as (HS & HE & HCH & HA & HI & HH & HR & HD).
    unfold total in Htot. unfold fractions. repeat split; lra. }
  destruct (run_fractions x0 n p Hp Hfr i)
    as (HS & HE & HA & HI & HH & HR & HD & H7).
  rewrite Htot in Hsum. split; [|exact Hsum].
  unfold total in Hsum. unfold nonneg. repeat split; lra.
Qed.

(** Data of a region that give a population distribution: counts are
    non-negative, the closed cases do not exceed the confirmed ones, and the
    confirmed plus latent cases fit in the population. *)
Lemma initial_conditions_nonneg (reg : region) (r : R) :
  0 < population reg -> 0 <= recovered reg -> 0 <= deaths reg ->
  recovered reg + deaths reg <= confirmed reg -> 0 <= r ->
  confirmed reg + r * (confirmed reg - recovered reg - deaths reg)
  <= population reg ->
  nonneg (initial_conditions reg r).
Proof.
  intros HN Hrec Hd Hc Hr Hfit.
  assert (Hinv : 0 < / population reg) by now apply Rinv_0_lt_compat.
  assert (Hone : population reg * / population reg = 1)
    by (apply Rinv_r; lra).
  unfold nonneg, initial_conditions. cbn [S_ E_ CH_ A_ I_ H_ R_ D_].
  unfold Rdiv.
  set (N := population reg) in *. set (iN := / N) in *.
  set (c := confirmed reg) in *. set (d := deaths reg) in *.
  set (rc := recovered reg) in *.
  assert (HI : 0 <= c * iN - rc * iN - d * iN).
  { replace (c * iN - rc * iN - d * iN) with ((c - rc - d) * iN) by ring.
    apply Rmult_le_pos; lra. }
  assert (HrI : 0 <= r * (c * iN - rc * iN - d * iN))
    by (apply Rmult_le_pos; lra).
  assert (HR : 0 <= rc * iN) by (apply Rmult_le_pos; lra).
  assert (HD : 0 <= d * iN) by (apply Rmult_le_pos; lra).
  assert (HS : 0 <= (N - (c + r * (c - rc - d))) * iN)
    by (apply Rmult_le_pos; lra).
  repeat split; lra.
Qed.

(** X21: from valid data to valid projections.  For a valid configuration
    and data of a region that give a population distribution, every row of
    the region's projection holds non-negative counts that sum to the
    population. *)
Theorem X21_valid_data_valid_projection (g : globals) (r κ : R)
  (reg : region) (i : nat) (s : state) :
  valid_params (with_κ0 (constants g) κ) ->
  0 < population reg -> 0 <= recovered reg -> 0 <= deaths reg ->
  recovered reg + deaths reg <= confirmed reg -> 0 <= r ->
  confirmed reg + r * (confirmed reg - recovered reg - deaths reg)
  <= population reg ->
  nth_error (scale (solve SEAIHRD_markov_step (initial_conditions reg r) 0
                      (n_days g) (with_κ0 (constants g) κ))
                   (population reg)) i = Some s ->
  nonneg s /\ total s = population reg.
Proof.
  intros Hp HN Hrec Hd Hc Hr Hfit Hs.
  unfold scale in Hs. rewrite nth_error_map in Hs.
  destruct (nth_error _ i) as [x|] eqn:Hx; [|discriminate].
  injection Hs as <-.
  assert (Hi : (i < n_days g)%nat).
  { rewrite <- (solve_length SEAIHRD_markov_step (initial_conditions reg r)
                  (with_κ0 (constants g) κ) 0 (n_days g)).
    apply nth_error_Some. congruence. }
  rewrite solve_nth_error in Hx by assumption. injection Hx as <-.
  destruct (initial_conditions_total reg r) as (Htot & HCH & _).
  destruct (run_distribution (with_κ0 (constants g) κ)
              (initial_conditions reg r) (n_days g) i Hp
              (initial_conditions_nonneg reg r HN Hrec Hd Hc Hr Hfit)
              Htot HCH) as [Hnn Hsum].
  split.
  - destruct Hnn as (HS & HE & HCH' & HA & HI & HH & HR & HD).
    unfold nonneg, scale_state. cbn [S_ E_ CH_ A_ I_ H_ R_ D_].
    repeat split; apply Rmult_le_pos; lra.
  - rewrite total_scale_state, Hsum. ring.
Qed.

Lemma X21_valid_data_valid_projection_witness :
  exists s,
    nth_error (scale (solve SEAIHRD_markov_step
                        (initial_conditions (mkRegion 1000 10 1 2) (1/2)) 0 5
                        (with_κ0 sample_params (1/5)))
                     1000) 3 = Some s
    /\ nonneg s /\ total s = 1000.
Proof.
  eexists. split.
  - unfold scale. rewrite nth_error_map.
    rewrite solve_nth_error by lia. reflexivity.
  - apply (X21_valid_data_valid_projection
             (mkGlobals sample_params 5 [mkRegion 1000 10 1 2])
             (1/2) (1/5) (mkRegion 1000 10 1 2) 3).
    + unfold valid_params, rates_in_unit, outflows_bounded,
        containment_valid. cbn. repeat split; lra.
    + cbn; lra.
    + cbn; lra.
    + cbn; lra.
    + cbn; lra.
    + lra.
    + cbn; lra.
    + unfold scale. rewrite nth_error_map. cbn [n_days constants].
      rewrite solve_nth_error by lia. reflexivity.
Defined.

(** X22: no validation of the data.  When the recovered and deceased of a
    region exceed its confirmed cases, the infected fraction of the initial
    conditions is negative, and the solver records it as it is on day 0. *)
Theorem X22_negative_infected_not_clamped (reg : region) (r : R)
  (n : nat) (p : ModelParameters) :
  0 < population reg -> confirmed reg < recovered reg + deaths reg ->
  (1 <= n)%nat ->
  exists s,
    nth_error (solve SEAIHRD_markov_step (initial_conditions reg r) 0 n p) 0
    = Some s
    /\ I_ s < 0.
Proof.
  intros HN Hc Hn. eexists. split; [apply solve_nth_error; lia|].
  assert (Hinv : 0 < / population reg) by now apply Rinv_0_lt_compat.
  change (I_ (initial_conditions reg r) < 0).
  unfold initial_conditions. cbn [I_]. unfold Rdiv.
  replace (confirmed reg * / population reg
           - recovered reg * / population reg
           - deaths reg * / population reg)
    with (- ((recovered reg + deaths reg - confirmed reg)
             * / population reg)) by ring.
  assert (0 < (recovered reg + deaths reg - confirmed reg)
              * / population reg) by (apply Rmult_lt_0_compat; lra).
  lra.
Qed.

Lemma X22_negative_infected_not_clamped_witness :
  exists s,
    nth_error (solve SEAIHRD_markov_step
                 (initial_conditions (mkRegion 1000 3 2 2) (1/2)) 0 4
                 sample_params) 0 = Some s
    /\ I_ s < 0.
Proof.
  apply (X22_negative_infected_not_clamped (mkRegion 1000 3 2 2) (1/2) 4
           sample_params); [cbn; lra | cbn; lra | lia].
Defined.

(** ** Calibration: range of the result and failures *)

Lemma py_index_bound (v : R) (l : list R) (i : nat) :
  py_index v l = Value i -> nth_error l i = Some v.
Proof.
  revert i. induction l as [|a rest IH]; intros i Hi; [discriminate|].
  cbn [py_index] in Hi. destruct (Req_dec_T a v) as [->|_].
  - injection Hi as <-. reflexivity.
  - destruct (py_index v rest) as [j| |] eqn:Hj; try discriminate.
    cbn [bind] in Hi. injection Hi as <-. now apply IH.
Qed.

(** X23: whenever [r_min] returns, what it returns is an element of the
    candidate list, standing at the position of the first minimum of the
    error list; this holds whatever the lengths of the two lists. *)
Theorem X23_r_min_picks_from_grid (r_range mae_range : list R) (r : R) :
  r_min r_range mae_range = Value r ->
  In r r_range
  /\ exists i m, nth_error r_range i = Some r
                 /\ nth_error mae_range i = Some m
                 /\ forall v, In v mae_range -> m <= v.
Proof.
  unfold r_min. intros H.
  destruct mae_range as [|a rest] eqn:Hm; [discriminate|].
  destruct (py_min_spec (a :: rest)) as (m & Hmin & Hin & Hle);
    [discriminate|].
  rewrite Hmin in H. cbn [bind] in H.
  destruct (py_index m (a :: rest)) as [i| |] eqn:Hi; try discriminate.
  cbn [bind] in H. unfold py_getitem in H.
  destruct (nth_error r_range i) as [r'|] eqn:Hr; [|discriminate].
  injection H as <-.
  split; [eapply nth_error_In; eassumption|].
  exists i, m. split; [exact Hr|].
  split; [now apply py_index_bound | exact Hle].
Qed.

Lemma X23_r_min_picks_from_grid_witness :
  In 20 [10; 20; 30; 40]
  /\ exists i m, nth_error [10; 20; 30; 40] i = Some 20
                 /\ nth_error [3; 1; 2; 1] i = Some m
                 /\ forall v, In v [3; 1; 2; 1] -> m <= v.
Proof.
  apply (X23_r_min_picks_from_grid [10; 20; 30; 40] [3; 1; 2; 1] 20).
  unfold r_min, py_min. cbn [fold_left].
  destruct (Rlt_dec 1 3); [|lra]. destruct (Rlt_dec 2 1); [lra|].
  destruct (Rlt_dec 1 1); [lra|].
  cbn [bind py_index].
  destruct (Req_dec_T 3 1); [lra|]. destruct (Req_dec_T 1 1); [|lra].
  reflexivity.
Defined.

(** X24: when the calibration raises.  It raises on an empty candidate
    list; for a non-empty one it raises when there is no region (the
    national projection is then a scalar that cannot be sliced), and when
    the observed series is longer than the horizon (unless one of the two
    lengths is 1). *)
Theorem X24_calibrate_failures (g : globals) (data r_range : list R) :
  calibrate g data [] = Raises
  /\ (r_range <> [] -> states_mex g = [] ->
      calibrate g data r_range = Raises)
  /\ (r_range <> [] -> states_mex g <> [] ->
      (n_days g < length data)%nat -> n_days g <> 1%nat ->
      length data <> 1%nat ->
      calibrate g data r_range = Raises).
Proof.
  split; [reflexivity|]. split.
  - intros Hr Hg. destruct r_range as [|r rest]; [contradiction|].
    unfold calibrate. cbn [cross_validation].
    unfold fit_error, solve_national, projections. rewrite Hg.
    reflexivity.
  - intros Hr Hg Hlong Hn1 Hd1.
    destruct r_range as [|r rest]; [contradiction|].
    destruct (solve_national_array g r 0 Hg) as (v & Hv & Hlen).
    unfold calibrate. cbn [cross_validation]. unfold fit_error.
    rewrite Hv. cbn [bind].
    rewrite MAE_shorter_projection; [reflexivity | | |]; rewrite ?Hlen; lia.
Qed.

Lemma X24_calibrate_failures_witness :
  calibrate two_days [1; 2; 3] [] = Raises
  /\ calibrate (mkGlobals idle_params 2 []) [1; 2; 3] [0; 1] = Raises
  /\ calibrate two_days [1; 2; 3] [0; 1] = Raises.
Proof.
  destruct (X24_calibrate_failures two_days [1; 2; 3] [0; 1])
    as (H0 & _ & H2).
  destruct (X24_calibrate_failures (mkGlobals idle_params 2 []) [1; 2; 3]
              [0; 1]) as (_ & H1 & _).
  split; [exact H0|]. split.
  - apply H1; [discriminate | reflexivity].
  - apply H2; try discriminate; cbn; lia.
Defined.

(** ** The derived constants *)

(** An average over the pyramid of values in [0,1] is in [0,1]; of
    non-negative values, non-negative. *)
Lemma dot_bounds (v w : list R) :
  Forall (fun u => 0 <= u) w ->
  (Forall (fun u => 0 <= u) v -> 0 <= dot v w)
  /\ (Forall (fun u => 0 <= u <= 1) v -> 0 <= dot v w <= rsum w).
Proof.
  revert w. induction v as [|a v IH]; intros w Hw.
  - unfold dot, rsum. cbn. split; intros _; [lra|].
    split; [lra|]. induction Hw as [|b w Hb Hw IHw]; cbn; lra.
  - destruct w as [|b w].
    + unfold dot, rsum. cbn. split; intros _; lra.
    + inversion Hw as [|? ? Hb Hw']; subst.
      destruct (IH w Hw') as [IH1 IH2].
      unfold dot, rsum in *. cbn [combine map fold_right fst snd].
      split; intros Hv; inversion Hv as [|? ? Ha Hv']; subst.
      * specialize (IH1 Hv'). assert (0 <= a * b) by (apply Rmult_le_pos; lra).
        lra.
      * specialize (IH2 Hv').
        assert (0 <= a * b) by (apply Rmult_le_pos; lra).
        assert (a * b <= b).
        { rewrite <- (Rmult_1_l b) at 2. apply Rmult_le_compat_r; lra. }
        lra.
Qed.

(** X25: the constants the script derives form a valid configuration.  For
    well-formed age-structured inputs with positive averages, a non-negative
    [R_0], ICU constants and latent rate in [0,1], [κ0] in [0,1] and a
    household of at least one person, the derived parameters are valid;
    the outflow of the infected compartment is exactly the averaged escape
    rate, and the infection chance per contact is below 1. *)
Theorem X25_derived_constants_valid
  (R_0 latent ωg ψg χg household : R) (ages : age_structure) (κ : R)
  (c : time) :
  ages_ok ages ->
  0 < dot (μg ages) (pop_dist ages) ->
  0 < dot (αg ages) (pop_dist ages) ->
  0 < dot (kg ages) (pop_dist ages) ->
  0 <= R_0 -> 0 <= latent <= 1 ->
  0 <= ωg <= 1 -> 0 <= ψg <= 1 -> 0 <= χg <= 1 ->
  0 <= κ <= 1 -> 1 <= household ->
  let p := model_constants R_0 latent ωg ψg χg household ages κ c in
  valid_params p
  /\ γI p + μI p + ν p = dot (μg ages) (pop_dist ages)
  /\ β p < 1.
Proof.
  intros (_ & _ & _ & _ & Hw & Hsum & Hμ & Hγ & Hα & Hk)
    Hμpos Hαpos Hkpos HR Hη Hω Hψ Hχ Hκ Hσ p.
  destruct (dot_bounds (μg ages) (pop_dist ages) Hw) as [_ Bμ].
  destruct (dot_bounds (γg ages) (pop_dist ages) Hw) as [_ Bγ].
  destruct (dot_bounds (αg ages) (pop_dist ages) Hw) as [_ Bα].
  specialize (Bμ Hμ). specialize (Bγ Hγ). specialize (Bα Hα).
  subst p. unfold valid_params, rates_in_unit, outflows_bounded,
    containment_valid, model_constants.
  cbn [β k_avg η α γI μI ν γH μH κ0 σ].
  set (μa := dot (μg ages) (pop_dist ages)) in *.
  set (γa := dot (γg ages) (pop_dist ages)) in *.
  set (ka := dot (kg ages) (pop_dist ages)) in *.
  set (αa := dot (αg ages) (pop_dist ages)) in *.
  set (e := exp (- R_0 / (ka * (1 / αa + 1 / μa)))).
  assert (He : 0 < e <= 1).
  { unfold e. split; [apply exp_pos|].
    apply Rle_trans with (exp 0); [|right; apply exp_0].
    apply exp_le_compat.
    assert (Hden : 0 < ka * (1 / αa + 1 / μa)).
    { apply Rmult_lt_0_compat; [assumption|].
      assert (0 < 1 / αa) by (apply Rdiv_lt_0_compat; lra).
      assert (0 < 1 / μa) by (apply Rdiv_lt_0_compat; lra).
      lra. }
    unfold Rdiv.
    assert (0 < / (ka * (1 / αa + 1 / μa)))
      by now apply Rinv_0_lt_compat.
    assert (0 <= R_0 * / (ka * (1 / αa + 1 / μa)))
      by (apply Rmult_le_pos; lra).
    lra. }
  assert (H1 : 0 <= μa * (1 - γa)) by (apply Rmult_le_pos; lra).
  assert (H2 : 0 <= μa * γa) by (apply Rmult_le_pos; lra).
  assert (H3 : 0 <= (1 - ωg) * χg) by (apply Rmult_le_pos; lra).
  assert (H4 : 0 <= ωg * ψg) by (apply Rmult_le_pos; lra).
  assert (H5 : (1 - ωg) * χg <= 1 - ωg).
  { rewrite <- (Rmult_1_r (1 - ωg)) at 2. apply Rmult_le_compat_l; lra. }
  assert (H6 : ωg * ψg <= ωg).
  { rewrite <- (Rmult_1_r ωg) at 2. apply Rmult_le_compat_l; lra. }
  assert (H7 : μa * (1 - γa) + μa * γa = μa) by ring.
  repeat split; lra.
Qed.

Lemma script_ages_ok : ages_ok script_ages.
Proof.
  unfold ages_ok, script_ages. cbn [pop_dist μg γg kg αg].
  repeat (split; [reflexivity|]).
  split; [repeat (apply Forall_cons; [lra|]); apply Forall_nil|].
  split; [unfold rsum; cbn [fold_right]; lra|].
  repeat split; repeat (apply Forall_cons; [lra|]); apply Forall_nil.
Qed.

Lemma script_averages_positive :
  0 < dot (μg script_ages) (pop_dist script_ages)
  /\ 0 < dot (αg script_ages) (pop_dist script_ages)
  /\ 0 < dot (kg script_ages) (pop_dist script_ages).
Proof.
  unfold dot, rsum, script_ages.
  cbn [pop_dist μg kg αg combine map fold_right fst snd].
  repeat split; lra.
Qed.

Lemma X25_derived_constants_valid_witness :
  valid_params (script_constants 2.3 0.5)
  /\ γI (script_constants 2.3 0.5) + μI (script_constants 2.3 0.5)
     + ν (script_constants 2.3 0.5)
     = dot (μg script_ages) (pop_dist script_ages)
  /\ β (script_constants 2.3 0.5) < 1.
Proof.
  destruct script_averages_positive as (Hμ & Hα & Hk).
  apply (X25_derived_constants_valid 2.3 (1 / 2.34) 0.42 (1 / 7) (1 / 10)
           3.7 script_ages 0.5 (Day 6) script_ages_ok Hμ Hα Hk); lra.
Defined.

(** ** Cumulative cases *)

(** In one step the total cases grow by the newly symptomatic [α·A]: the
    flows out of I and H stay inside I+H+R+D. *)
Lemma step_total_cases (x : state) (t : Z) (s c : R) (p : ModelParameters) :
  total_cases (SEAIHRD_markov_step x t s c p)
  = total_cases x + α p * A_ x.
Proof. unfold total_cases, SEAIHRD_markov_step. cbn. ring. Qed.

(** X26: the total cases I+H+R+D of a region are cumulative.  From one
    recorded day to the next they grow by exactly [α·A], the newly
    symptomatic, and so never decrease in a valid run. *)
Theorem X26_total_cases_cumulative (p : ModelParameters) (x0 : state)
  (t0 : R) (n i : nat) (s s' : state) :
  valid_params p -> nonneg x0 -> total x0 <= 1 ->
  nth_error (solve SEAIHRD_markov_step x0 t0 n p) i = Some s ->
  nth_error (solve SEAIHRD_markov_step x0 t0 n p) (i + 1) = Some s' ->
  total_cases s' = total_cases s + α p * A_ s
  /\ total_cases s <= total_cases s'.
Proof.
  intros Hp Hx Htot Hs Hs'.
  assert (Hi : (i + 1 < n)%nat).
  { rewrite <- (solve_length SEAIHRD_markov_step x0 p t0 n).
    apply nth_error_Some. congruence. }
  rewrite solve_nth_error in Hs, Hs' by lia.
  injection Hs as <-. injection Hs' as <-.
  assert (Hfr : fractions x0).
  { destruct Hx as (HS & HE & HCH & HA & HI & HH & HR & HD).
    unfold total in Htot. unfold fractions. repeat split; lra. }
  destruct (run_fractions x0 n p Hp Hfr i) as (_ & _ & HA & _).
  destruct Hp as ((_ & _ & Hα & _) & _).
  rewrite Nat.add_1_r, solve_loop_S. unfold solve_body; cbn [xt].
  rewrite step_total_cases. split; [reflexivity|].
  assert (0 <= α p * A_ (xt (solve_loop SEAIHRD_markov_step x0 n p i)))
    by (apply Rmult_le_pos; lra).
  lra.
Qed.

Lemma X26_total_cases_cumulative_witness :
  exists s s',
    nth_error (solve SEAIHRD_markov_step sample_state 0 6 sample_params) 3
    = Some s
    /\ nth_error (solve SEAIHRD_markov_step sample_state 0 6 sample_params)
         (3 + 1) = Some s'
    /\ total_cases s' = total_cases s + α sample_params * A_ s
    /\ total_cases s <= total_cases s'.
Proof.
  do 2 eexists. split; [apply solve_nth_error; lia|].
  split; [apply solve_nth_error; lia|].
  apply (X26_total_cases_cumulative sample_params sample_state 0 6 3).
  - unfold valid_params, rates_in_unit, outflows_bounded, containment_valid.
    cbn. repeat split; lra.
  - unfold nonneg. cbn. repeat split; lra.
  - unfold total. cbn. lra.
  - apply solve_nth_error; lia.
  - apply solve_nth_error; lia.
Defined.
